(** * torchfile: a shallow embedding of [utils/torchfile.py]

    The reader of Torch7 binary files ([T7Reader]) is embedded as a state
    and error monad over an explicit reader state: the bytes that remain in
    the file object, the table of objects read so far ([self.objects]), and
    a store of the Python objects that have an identity (dicts, lists,
    [TorchObject]s, [LuaFunction]s and numpy arrays).

    Conventions of the embedding:
    - Python 3 on a little-endian host; the width of a C [long] (format
      ['l'] of [struct] and of [array]) is a parameter of the host;
    - [int(str)] is a builtin whose parser is not part of the repository: it
      is a parameter of the host as well;
    - the interpreter's recursion limit and memory exhaustion are not
      modelled; recursion is bounded by a fuel argument, and the theorem
      [read_obj_fuel_enough] shows which fuel is always enough. *)

From Stdlib Require Import ZArith Lia.
From Stdlib.Strings Require Import Byte String Ascii.
From Stdlib Require Import SpecFloat.
From stdpp Require Import gmap list.

Local Open Scope Z_scope.

(** ** Bytes and [struct] decoding *)

Definition byte_val (b : byte) : Z := Z.of_N (Byte.to_N b).

#[global] Instance byte_eq_decision : EqDecision byte := Byte.byte_eq_dec.

(** Little-endian unsigned value of a byte string. *)
Fixpoint le_unsigned (bs : list byte) : Z :=
  match bs with
  | [] => 0
  | b :: bs' => byte_val b + 256 * le_unsigned bs'
  end.

(** Two's complement reading of an unsigned value on [n] bytes. *)
Definition to_signed (n : nat) (u : Z) : Z :=
  if u <? 2 ^ (8 * Z.of_nat n - 1) then u else u - 2 ^ (8 * Z.of_nat n).

Definition le_signed (bs : list byte) : Z :=
  to_signed (length bs) (le_unsigned bs).

(** Width of the native C [long]: 4 bytes (Windows, 32-bit hosts) or
    8 bytes (64-bit Linux and macOS). *)
Inductive long_width := Long4 | Long8.

Definition long_bytes (w : long_width) : nat :=
  match w with Long4 => 4%nat | Long8 => 8%nat end.

(** Python [str]: a sequence of code points. *)
Definition str := list N.

Definition str_of_string (s : string) : str :=
  map N_of_ascii (list_ascii_of_string s).

(** What the code takes from its host. *)
Record host := Host {
  sizeof_long : long_width;
  (** [int(s)] for a [str]; [None] when it raises [ValueError]. *)
  int_of_str : str -> option Z;
  (** The width of numpy's index type [npy_intp], that of a pointer. *)
  sizeof_intp : long_width;
  (** The largest number of dimensions numpy gives an array
      ([NPY_MAXDIMS]). *)
  np_maxdims : nat
}.

(** The [struct] format characters the reader uses. *)
Inductive fmt := Fmt_i | Fmt_l | Fmt_q | Fmt_f | Fmt_d.

(** [struct.calcsize(fmt)] in native mode. *)
Definition calcsize (h : host) (c : fmt) : nat :=
  match c with
  | Fmt_i => 4%nat
  | Fmt_l => long_bytes (sizeof_long h)
  | Fmt_q => 8%nat
  | Fmt_f => 4%nat
  | Fmt_d => 8%nat
  end.

(** ** Python floats

    A float is an IEEE 754 binary64 value, represented by the Standard
    Library's [spec_float]: [S754_finite s m e] is [(-1)^s * m * 2^e]. *)

Definition float_of_bits (bits : Z) : spec_float :=
  let s := Z.testbit bits 63 in
  let e := Z.land (Z.shiftr bits 52) 2047 in
  let m := Z.land bits (2 ^ 52 - 1) in
  if e =? 0 then
    match m with
    | Zpos p => S754_finite s p (-1074)
    | _ => S754_zero s
    end
  else if e =? 2047 then
    if m =? 0 then S754_infinity s else S754_nan
  else S754_finite s (Z.to_pos (m + 2 ^ 52)) (e - 1075).

(** [x.is_integer()]: false on infinities and NaN. *)
Definition is_integer (x : spec_float) : bool :=
  match x with
  | S754_zero _ => true
  | S754_finite _ m e =>
      if 0 <=? e then true else Zpos m mod 2 ^ (- e) =? 0
  | S754_infinity _ | S754_nan => false
  end.

(** ** Errors and the reader monad *)

Inductive t7_message :=
| UnsupportedTorchClass (className : str)   (* 'unsupported torch class: <%s>' *)
| UnknownObject.                            (* "unknown object" *)

Inductive error :=
| StructError          (* struct.error: unpack requires a buffer of n bytes *)
| EOFError             (* array.fromfile: read() didn't return enough bytes *)
| ValueError
| OverflowError
| UnicodeDecodeError
| TypeError
| AttributeError
| KeyError
| T7ReaderException (msg : t7_message).

Inductive result (A : Type) :=
| Ok (a : A)
| Raise (e : error)
| OutOfFuel.
Arguments Ok {A} a.
Arguments Raise {A} e.
Arguments OutOfFuel {A}.

(** [int(x)] for a float: truncation; infinities and NaN raise. *)
Definition int_of_float (x : spec_float) : result Z :=
  match x with
  | S754_zero _ => Ok 0
  | S754_finite s m e =>
      let a := if 0 <=? e then Zpos m * 2 ^ e else Zpos m / 2 ^ (- e) in
      Ok (if s then - a else a)
  | S754_infinity _ => Raise OverflowError
  | S754_nan => Raise ValueError
  end.

(** ** [bytes.decode()]: strict UTF-8 *)

Definition is_cont (c : Z) : bool := (128 <=? c) && (c <=? 191).

Definition in_range (lo hi c : Z) : bool := (lo <=? c) && (c <=? hi).

(** [None] stands for [UnicodeDecodeError]. Overlong forms, surrogates and
    code points above U+10FFFF are rejected, as CPython does. *)
Fixpoint utf8_decode (bs : list byte) : option str :=
  match bs with
  | [] => Some []
  | b0 :: r0 =>
      let c0 := byte_val b0 in
      if c0 <? 128 then
        option_map (cons (Z.to_N c0)) (utf8_decode r0)
      else if in_range 194 223 c0 then
        match r0 with
        | b1 :: r1 =>
            let c1 := byte_val b1 in
            if is_cont c1 then
              option_map (cons (Z.to_N ((c0 - 192) * 64 + (c1 - 128))))
                         (utf8_decode r1)
            else None
        | _ => None
        end
      else if in_range 224 239 c0 then
        match r0 with
        | b1 :: b2 :: r2 =>
            let c1 := byte_val b1 in
            let c2 := byte_val b2 in
            let lo := if c0 =? 224 then 160 else 128 in
            let hi := if c0 =? 237 then 159 else 191 in
            if in_range lo hi c1 && is_cont c2 then
              option_map
                (cons (Z.to_N ((c0 - 224) * 4096 + (c1 - 128) * 64 + (c2 - 128))))
                (utf8_decode r2)
            else None
        | _ => None
        end
      else if in_range 240 244 c0 then
        match r0 with
        | b1 :: b2 :: b3 :: r3 =>
            let c1 := byte_val b1 in
            let c2 := byte_val b2 in
            let c3 := byte_val b3 in
            let lo := if c0 =? 240 then 144 else 128 in
            let hi := if c0 =? 244 then 143 else 191 in
            if in_range lo hi c1 && is_cont c2 && is_cont c3 then
              option_map
                (cons (Z.to_N ((c0 - 240) * 262144 + (c1 - 128) * 4096
                               + (c2 - 128) * 64 + (c3 - 128))))
                (utf8_decode r3)
            else None
        | _ => None
        end
      else None
  end.

(** [s.startswith(p)] *)
Fixpoint startswith (s p : str) : bool :=
  match p, s with
  | [], _ => true
  | c :: p', d :: s' => (c =? d)%N && startswith s' p'
  | _ :: _, [] => false
  end.

(** [s.partition(sep)[2]] for a one-character separator: what follows the
    first occurrence of [sep], the empty string when there is none. *)
Fixpoint partition_tail (sep : N) (s : str) : str :=
  match s with
  | [] => []
  | c :: s' => if (c =? sep)%N then s' else partition_tail sep s'
  end.

(** ** Values and objects *)

Definition addr := nat.

(** A Python value as the reader handles it: immediates are carried by
    value, everything with an identity is a reference into the store. *)
Inductive value :=
| VNone
| VInt (z : Z)
| VFloat (x : spec_float)
| VBool (b : bool)
| VStr (s : str)
| VRef (a : addr).

(** numpy element types of the registered tensors and storages. *)
Inductive dtype := uint8 | int8 | int16 | int32 | int64 | float32 | float64.

Definition itemsize (d : dtype) : Z :=
  match d with
  | uint8 | int8 => 1
  | int16 => 2
  | int32 | float32 => 4
  | int64 | float64 => 8
  end.

(** A numpy array: either the owner of a buffer ([nd_owner = None], the
    elements are [nd_data]) or a view of the buffer of the array at
    [nd_owner]. [nd_offset] is the position of the first element in that
    buffer, in bytes; [nd_strides] are in bytes, as numpy has them. *)
Record ndarray := NdArray {
  nd_dtype : dtype;
  nd_owner : option addr;
  nd_data : list byte;
  nd_offset : Z;
  nd_shape : list Z;
  nd_strides : list Z
}.

Inductive object :=
| ODict (d : list (value * value))                 (* hashable_uniq_dict *)
| OList (l : list value)
| OTorchObject (typename : str) (obj : value)      (* TorchObject *)
| OLuaFunction (size : Z) (dumped : list byte) (upvalues : value)
| ONdarray (a : ndarray).

(** The state of a [T7Reader]: [fileobj] holds the bytes not yet read,
    [objects] is [self.objects], [store] holds the objects allocated so
    far, the address of an object being its position. *)
Record T7Reader := mkT7Reader {
  fileobj : list byte;
  objects : gmap Z value;
  store : list object
}.

(** The constructor's flags; they never change after construction. *)
Record options := Options {
  use_list_heuristic : bool;
  use_int_heuristic : bool;
  force_deserialize_classes : bool;
  force_8bytes_long : bool
}.

(** The defaults of [T7Reader.__init__]. *)
Definition default_options : options :=
  Options true true true false.

Definition M (A : Type) : Type := T7Reader -> result (A * T7Reader).

Definition ret {A} (a : A) : M A := fun r => Ok (a, r).

Definition bind {A B} (m : M A) (k : A -> M B) : M B :=
  fun r =>
    match m r with
    | Ok (a, r') => k a r'
    | Raise e => Raise e
    | OutOfFuel => OutOfFuel
    end.

Definition raise {A} (e : error) : M A := fun _ => Raise e.

Definition lift {A} (x : result A) : M A :=
  fun r =>
    match x with
    | Ok a => Ok (a, r)
    | Raise e => Raise e
    | OutOfFuel => OutOfFuel
    end.

Notation "'let*' x ':=' c1 'in' c2" := (bind c1 (fun x => c2))
  (at level 10, x name, c1 at level 100, c2 at level 200).
Notation "'let*' ' pat ':=' c1 'in' c2" :=
  (bind c1 (fun x => match x with pat => c2 end))
  (at level 10, pat pattern, c1 at level 100, c2 at level 200).

(** [for x in l: acc = body(x, acc)] *)
Fixpoint for_in {A B} (l : list B) (body : B -> A -> M A) (acc : A) : M A :=
  match l with
  | [] => ret acc
  | x :: l' => let* acc' := body x acc in for_in l' body acc'
  end.

(** [range(n)]: empty when [n <= 0]. *)
Definition range (n : Z) : list Z := seqZ 0 n.

(** Allocation of a new object; its address is returned as a reference. *)
Definition alloc (ob : object) : M value :=
  fun r =>
    Ok (VRef (length (store r)),
        mkT7Reader (fileobj r) (objects r) (store r ++ [ob])).

Definition get_store : M (list object) := fun r => Ok (store r, r).

(** [self.objects[index] = obj] *)
Definition objects_set (index : Z) (obj : value) : M unit :=
  fun r =>
    Ok (tt, mkT7Reader (fileobj r) (<[index := obj]> (objects r)) (store r)).

(** [self.objects.get(index)] *)
Definition objects_get (index : Z) : M (option value) :=
  fun r => Ok (objects r !! index, r).

(** ** Python equality and hashing of table keys *)

Definition Z_of_bool (b : bool) : Z := if b then 1 else 0.

(** [isinstance(k, int)]: [bool] is a subclass of [int], [True] is the
    integer 1 and [False] the integer 0. *)
Definition isinstance_int (k : value) : option Z :=
  match k with
  | VInt z => Some z
  | VBool b => Some (Z_of_bool b)
  | _ => None
  end.

(** [x == y] on floats, by value. *)
Definition float_eqb (x y : spec_float) : bool :=
  match x, y with
  | S754_zero _, S754_zero _ => true
  | S754_infinity s, S754_infinity t => Bool.eqb s t
  | S754_finite s m e, S754_finite t n f =>
      let lo := Z.min e f in
      Bool.eqb s t && (Zpos m * 2 ^ (e - lo) =? Zpos n * 2 ^ (f - lo))
  | _, _ => false
  end.

(** [x == z] for a float and an int: exact comparison. *)
Definition float_eq_int (x : spec_float) (z : Z) : bool :=
  is_integer x &&
  match int_of_float x with
  | Ok i => i =? z
  | _ => false
  end.

(** [a is b or a == b], the test a dict applies to keys with equal hashes.
    Dicts ([hashable_uniq_dict]) and [TorchObject]s compare by identity;
    a [LuaFunction] is a namedtuple and compares field by field. An
    immediate is a new object at every read, so that two NaN never are the
    same object. *)
Fixpoint key_eqb (fuel : nat) (s : list object) (a b : value) : bool :=
  match a, b with
  | VNone, VNone => true
  | VStr x, VStr y => bool_decide (x = y)
  | VRef p, VRef q =>
      if (p =? q)%nat then true
      else
        match fuel with
        | O => false
        | S fuel' =>
            match s !! p, s !! q with
            | Some (OLuaFunction sz1 d1 u1), Some (OLuaFunction sz2 d2 u2) =>
                (sz1 =? sz2) && bool_decide (d1 = d2) && key_eqb fuel' s u1 u2
            | _, _ => false
            end
        end
  | VFloat x, VFloat y => float_eqb x y
  | VFloat x, _ =>
      match isinstance_int b with
      | Some z => float_eq_int x z
      | None => false
      end
  | _, VFloat y =>
      match isinstance_int a with
      | Some z => float_eq_int y z
      | None => false
      end
  | _, _ =>
      match isinstance_int a, isinstance_int b with
      | Some z, Some w => z =? w
      | _, _ => false
      end
  end.

(** Whether [hash(v)] succeeds: lists and numpy arrays are unhashable, a
    namedtuple hashes its fields. *)
Fixpoint hashable (fuel : nat) (s : list object) (v : value) : bool :=
  match v with
  | VRef p =>
      match s !! p with
      | Some (ODict _) | Some (OTorchObject _ _) => true
      | Some (OLuaFunction _ _ u) =>
          match fuel with
          | O => false
          | S fuel' => hashable fuel' s u
          end
      | Some (OList _) | Some (ONdarray _) | None => false
      end
  | _ => true
  end.

(** [d[k] = v] on the entries of a dict, in insertion order: an equal key
    keeps its place and its first spelling, only the value changes. *)
Fixpoint dict_set (eqb : value -> value -> bool) (d : list (value * value))
         (k v : value) : list (value * value) :=
  match d with
  | [] => [(k, v)]
  | (k', v') :: d' =>
      if eqb k' k then (k', v) :: d' else (k', v') :: dict_set eqb d' k v
  end.

(** [d[k]]; [None] stands for [KeyError]. *)
Fixpoint dict_get (eqb : value -> value -> bool) (d : list (value * value))
         (k : value) : option value :=
  match d with
  | [] => None
  | (k', v') :: d' => if eqb k' k then Some v' else dict_get eqb d' k
  end.

(** [obj[k] = v] for the dict at [obj]. *)
Definition dict_setitem (obj k v : value) : M unit :=
  fun r =>
    let s := store r in
    match obj with
    | VRef a =>
        match s !! a with
        | Some (ODict d) =>
            if hashable (length s) s k then
              Ok (tt, mkT7Reader (fileobj r) (objects r)
                        (<[a := ODict (dict_set (key_eqb (length s) s) d k v)]> s))
            else Raise TypeError
        | _ => Raise TypeError
        end
    | _ => Raise TypeError
    end.

(** The entries of the dict at [obj]. *)
Definition dict_items (obj : value) : M (list (value * value)) :=
  fun r =>
    match obj with
    | VRef a =>
        match store r !! a with
        | Some (ODict d) => Ok (d, r)
        | _ => Raise TypeError
        end
    | _ => Raise TypeError
    end.

(** ** The primitive reader *)

Section Reader.

Context (h : host) (o : options).

(** [self.f.read(size)] on a buffered binary file: at most [size] bytes,
    everything that remains for [-1], [ValueError] below [-1]. *)
Definition f_read (size : Z) : M (list byte) :=
  fun r =>
    if size <? -1 then Raise ValueError
    else if size =? -1 then
      Ok (fileobj r, mkT7Reader [] (objects r) (store r))
    else
      let n := Z.to_nat size in
      Ok (take n (fileobj r),
          mkT7Reader (drop n (fileobj r)) (objects r) (store r)).

(** [struct.unpack(fmt, bs)[0]]: the integer formats give the signed
    value, the float formats the IEEE bit pattern (decoded by the caller).
    A buffer of the wrong length raises [struct.error]. *)
Definition struct_unpack (c : fmt) (bs : list byte) : result Z :=
  if (length bs =? calcsize h c)%nat then
    match c with
    | Fmt_f | Fmt_d => Ok (le_unsigned bs)
    | _ => Ok (le_signed bs)
    end
  else Raise StructError.

Definition _read (c : fmt) : M Z :=
  let sz := calcsize h c in
  let* bs := f_read (Z.of_nat sz) in
  lift (struct_unpack c bs).

Definition read_int : M Z := _read Fmt_i.

Definition read_boolean : M bool :=
  let* i := read_int in ret (i =? 1).

Definition read_long : M Z :=
  if force_8bytes_long o then _read Fmt_q else _read Fmt_l.

(** [array('l').fromfile(f, n)] followed by [tolist()]. *)
Definition array_fromfile (n : Z) : M (list Z) :=
  let w := long_bytes (sizeof_long h) in
  if n <? 0 then raise ValueError
  else
    let* b := f_read (n * Z.of_nat w) in
    if negb (Z.of_nat (length b) mod Z.of_nat w =? 0) then raise ValueError
    else if negb (Z.of_nat (length b) =? n * Z.of_nat w) then raise EOFError
    else ret (map le_signed (reshape (replicate (Z.to_nat n) w) b)).

Definition read_long_array (n : Z) : M (list Z) :=
  if force_8bytes_long o then
    for_in (range n) (fun _ lst => let* x := read_long in ret (lst ++ [x])) []
  else array_fromfile n.

(** A binary32 pattern as the float of the same value. *)
Definition float_of_bits32 (bits : Z) : spec_float :=
  let s := Z.testbit bits 31 in
  let e := Z.land (Z.shiftr bits 23) 255 in
  let m := Z.land bits (2 ^ 23 - 1) in
  if e =? 0 then
    match m with
    | Zpos p => S754_finite s p (-149)
    | _ => S754_zero s
    end
  else if e =? 255 then
    if m =? 0 then S754_infinity s else S754_nan
  else S754_finite s (Z.to_pos (m + 2 ^ 23)) (e - 150).

Definition read_float : M spec_float :=
  let* bits := _read Fmt_f in ret (float_of_bits32 bits).

Definition read_double : M spec_float :=
  let* bits := _read Fmt_d in ret (float_of_bits bits).

Definition read_string : M str :=
  let* size := read_int in
  let* bytes := f_read size in
  match utf8_decode bytes with
  | Some s => ret s
  | None => raise UnicodeDecodeError
  end.

(** ** numpy *)

(** [np.empty((0), dtype=dtype)] *)
Definition np_empty0 (dt : dtype) : M value :=
  alloc (ONdarray (NdArray dt None [] 0 [0] [itemsize dt])).

(** [np.fromfile(f, dtype=dtype, count=count)]: the whole items that are
    there, at most [count] of them when [count] is not negative. *)
Definition np_fromfile (dt : dtype) (count : Z) : M value :=
  fun r =>
    let avail := Z.of_nat (length (fileobj r)) / itemsize dt in
    let n := if count <? 0 then avail else Z.min count avail in
    let nbytes := Z.to_nat (n * itemsize dt) in
    alloc (ONdarray (NdArray dt None (take nbytes (fileobj r)) 0 [n] [itemsize dt]))
          (mkT7Reader (drop nbytes (fileobj r)) (objects r) (store r)).

(** The array behind [storage], with its address: what
    [storage.dtype.itemsize] and [storage[storage_offset:]] need. A value
    that is no array raises (the kind of the exception is not modelled
    further). *)
Definition get_ndarray (storage : value) : M (addr * ndarray) :=
  fun r =>
    match storage with
    | VRef a =>
        match store r !! a with
        | Some (ONdarray x) => Ok ((a, x), r)
        | _ => Raise AttributeError
        end
    | _ => Raise AttributeError
    end.

(** [x[k:]] for the array [x] at address [a]: a view of the same buffer,
    the start clipped as Python slices are. *)
Definition slice_from (a : addr) (x : ndarray) (k : Z) : result ndarray :=
  match nd_shape x, nd_strides x with
  | len :: shape', s0 :: _ =>
      let start := if k <? 0 then Z.max (len + k) 0 else Z.min k len in
      Ok (NdArray (nd_dtype x) (Some (default a (nd_owner x))) []
                  (nd_offset x + start * s0)
                  ((len - start) :: shape') (nd_strides x))
  | _, _ => Raise TypeError
  end.

(** The largest [npy_intp]. *)
Definition intp_max : Z :=
  2 ^ (8 * Z.of_nat (long_bytes (sizeof_intp h)) - 1) - 1.

(** Whether numpy makes an array of items of [isz] bytes with this shape
    and these strides: no more dimensions than it supports, no negative
    dimension, every dimension and stride within [npy_intp], and the size
    in bytes within [npy_intp] too; numpy computes that size as the item
    size times the dimensions that are not zero. *)
Definition np_accepts (isz : Z) (shape strides : list Z) : bool :=
  (length shape <=? np_maxdims h)%nat
  && forallb (fun d => (0 <=? d) && (d <=? intp_max)) shape
  && forallb (fun s => (- intp_max - 1 <=? s) && (s <=? intp_max)) strides
  && (isz * fold_right Z.mul 1 (List.filter (fun d => negb (d =? 0)) shape)
      <=? intp_max).

(** [np.lib.stride_tricks.as_strided(x, shape=shape, strides=strides)]:
    a new array on the buffer of [x], which nothing checks to hold the
    elements the shape and the strides reach. A shape or strides that
    numpy does not accept raise; the exception is recorded as the
    [ValueError] of a negative dimension and of an array that is too big,
    its kind in the other cases is not modelled further. *)
Definition as_strided (x : ndarray) (shape strides : list Z) : M value :=
  if np_accepts (itemsize (nd_dtype x)) shape strides then
    alloc (ONdarray (NdArray (nd_dtype x) (nd_owner x) [] (nd_offset x)
                             shape strides))
  else raise ValueError.

(** ** The registry of class readers *)

Inductive class_reader :=
| TensorReader (dt : dtype)      (* add_tensor_reader *)
| StorageReader (dt : dtype)     (* add_storage_reader *)
| TrivialClassReader.            (* add_trivial_class_reader *)

Definition tensor_classes : list (string * dtype) :=
  [("torch.ByteTensor", uint8); ("torch.CharTensor", int8);
   ("torch.ShortTensor", int16); ("torch.IntTensor", int32);
   ("torch.LongTensor", int64); ("torch.FloatTensor", float32);
   ("torch.DoubleTensor", float64); ("torch.CudaTensor", float32);
   ("torch.CudaByteTensor", uint8); ("torch.CudaCharTensor", int8);
   ("torch.CudaShortTensor", int16); ("torch.CudaIntTensor", int32);
   ("torch.CudaDoubleTensor", float64)]%string.

Definition storage_classes : list (string * dtype) :=
  [("torch.ByteStorage", uint8); ("torch.CharStorage", int8);
   ("torch.ShortStorage", int16); ("torch.IntStorage", int32);
   ("torch.LongStorage", int64); ("torch.FloatStorage", float32);
   ("torch.DoubleStorage", float64); ("torch.CudaStorage", float32);
   ("torch.CudaByteStorage", uint8); ("torch.CudaCharStorage", int8);
   ("torch.CudaShortStorage", int16); ("torch.CudaIntStorage", int32);
   ("torch.CudaDoubleStorage", float64)]%string.

Definition trivial_classes : list string :=
  ["nn.ConcatTable"; "nn.SpatialAveragePooling";
   "nn.TemporalConvolutionFB"; "nn.BCECriterion"; "nn.Reshape";
   "nn.gModule"; "nn.SparseLinear"; "nn.WeightedLookupTable";
   "nn.CAddTable"; "nn.TemporalConvolution"; "nn.PairwiseDistance";
   "nn.WeightedMSECriterion"; "nn.SmoothL1Criterion";
   "nn.TemporalSubSampling"; "nn.TanhShrink"; "nn.MixtureTable"; "nn.Mul";
   "nn.LogSoftMax"; "nn.Min"; "nn.Exp"; "nn.Add"; "nn.BatchNormalization";
   "nn.AbsCriterion"; "nn.MultiCriterion"; "nn.LookupTableGPU"; "nn.Max";
   "nn.MulConstant"; "nn.NarrowTable"; "nn.View";
   "nn.ClassNLLCriterionWithUNK"; "nn.VolumetricConvolution";
   "nn.SpatialSubSampling"; "nn.HardTanh"; "nn.DistKLDivCriterion";
   "nn.SplitTable"; "nn.DotProduct"; "nn.HingeEmbeddingCriterion";
   "nn.SpatialBatchNormalization"; "nn.DepthConcat"; "nn.Sigmoid";
   "nn.SpatialAdaptiveMaxPooling"; "nn.Parallel"; "nn.SoftShrink";
   "nn.SpatialSubtractiveNormalization"; "nn.TrueNLLCriterion"; "nn.Log";
   "nn.SpatialDropout"; "nn.LeakyReLU"; "nn.VolumetricMaxPooling";
   "nn.KMaxPooling"; "nn.Linear"; "nn.Euclidean"; "nn.CriterionTable";
   "nn.SpatialMaxPooling"; "nn.TemporalKMaxPooling";
   "nn.MultiMarginCriterion"; "nn.ELU"; "nn.CSubTable";
   "nn.MultiLabelMarginCriterion"; "nn.Copy"; "nn.CuBLASWrapper";
   "nn.L1HingeEmbeddingCriterion"; "nn.VolumetricAveragePooling";
   "nn.StochasticGradient"; "nn.SpatialContrastiveNormalization";
   "nn.CosineEmbeddingCriterion"; "nn.CachingLookupTable";
   "nn.FeatureLPPooling"; "nn.Padding"; "nn.Container";
   "nn.MarginRankingCriterion"; "nn.Module"; "nn.ParallelCriterion";
   "nn.DataParallelTable"; "nn.Concat"; "nn.CrossEntropyCriterion";
   "nn.LookupTable"; "nn.SpatialSoftMax"; "nn.HardShrink"; "nn.Abs";
   "nn.SoftMin"; "nn.WeightedEuclidean"; "nn.Replicate"; "nn.DataParallel";
   "nn.OneBitQuantization"; "nn.OneBitDataParallel"; "nn.AddConstant";
   "nn.L1Cost"; "nn.HSM"; "nn.PReLU"; "nn.JoinTable";
   "nn.ClassNLLCriterion"; "nn.CMul"; "nn.CosineDistance"; "nn.Index";
   "nn.Mean"; "nn.FFTWrapper"; "nn.Dropout"; "nn.SpatialConvolutionCuFFT";
   "nn.SoftPlus"; "nn.AbstractParallel"; "nn.SequentialCriterion";
   "nn.LocallyConnected"; "nn.SpatialDivisiveNormalization";
   "nn.L1Penalty"; "nn.Threshold"; "nn.Power"; "nn.Sqrt"; "nn.MM";
   "nn.GroupKMaxPooling"; "nn.CrossMapNormalization"; "nn.ReLU";
   "nn.ClassHierarchicalNLLCriterion"; "nn.Optim"; "nn.SoftMax";
   "nn.SpatialConvolutionMM"; "nn.Cosine"; "nn.Clamp"; "nn.CMulTable";
   "nn.LogSigmoid"; "nn.LinearNB"; "nn.TemporalMaxPooling";
   "nn.MSECriterion"; "nn.Sum"; "nn.SoftSign"; "nn.Normalize";
   "nn.ParallelTable"; "nn.FlattenTable"; "nn.CDivTable"; "nn.Tanh";
   "nn.ModuleFromCriterion"; "nn.Square"; "nn.Select";
   "nn.GradientReversal"; "nn.SpatialFullConvolutionMap";
   "nn.SpatialConvolution"; "nn.Criterion"; "nn.SpatialConvolutionMap";
   "nn.SpatialLPPooling"; "nn.Sequential"; "nn.Transpose";
   "nn.SpatialUpSamplingNearest"; "nn.SpatialFullConvolution";
   "nn.ModelParallel"; "nn.RReLU"; "nn.SpatialZeroPadding"; "nn.Identity";
   "nn.Narrow"; "nn.MarginCriterion"; "nn.SelectTable";
   "nn.VolumetricFullConvolution"; "nn.SpatialFractionalMaxPooling";
   "fbnn.ProjectiveGradientNormalization"; "fbnn.Probe";
   "fbnn.SparseLinear"; "cudnn._Pooling3D"; "cudnn.VolumetricMaxPooling";
   "cudnn.SpatialCrossEntropyCriterion"; "cudnn.VolumetricConvolution";
   "cudnn.SpatialAveragePooling"; "cudnn.Tanh"; "cudnn.LogSoftMax";
   "cudnn.SpatialConvolution"; "cudnn._Pooling"; "cudnn.SpatialMaxPooling";
   "cudnn.ReLU"; "cudnn.SpatialCrossMapLRN"; "cudnn.SoftMax";
   "cudnn._Pointwise"; "cudnn.SpatialSoftMax"; "cudnn.Sigmoid";
   "cudnn.SpatialLogSoftMax"; "cudnn.VolumetricAveragePooling";
   "nngraph.Node"; "nngraph.JustTable"; "graph.Edge"; "graph.Node";
   "graph.Graph"]%string.

(** The registrations in the order the module makes them. *)
Definition registrations : list (str * class_reader) :=
  map (fun '(n, dt) => (str_of_string n, TensorReader dt)) tensor_classes
  ++ map (fun '(n, dt) => (str_of_string n, StorageReader dt)) storage_classes
  ++ map (fun n => (str_of_string n, TrivialClassReader)) trivial_classes.

(** [torch_readers.get(className)]: a later registration of a name
    replaces an earlier one. *)
Definition torch_readers (className : str) : option class_reader :=
  fold_left
    (fun found '(n, rd) => if bool_decide (n = className) then Some rd else found)
    registrations None.

(** ** Class readers *)

Definition is_none (v : value) : bool :=
  match v with VNone => true | _ => false end.

(** [read_tensor_generic] of [add_tensor_reader(typename, dtype)];
    [read_obj] is [reader.read_obj]. *)
Definition read_tensor_generic (dt : dtype) (read_obj : M value)
           (version : str) : M value :=
  let* ndim := read_int in
  let* size := read_long_array ndim in
  let* stride := read_long_array ndim in
  let* l := read_long in
  let storage_offset := l - 1 in
  let* storage := read_obj in
  if is_none storage || (ndim =? 0)
     || (length size =? 0)%nat || (length stride =? 0)%nat then
    np_empty0 dt
  else
    let* '(a, x) := get_ndarray storage in
    let stride := map (fun s => itemsize (nd_dtype x) * s) stride in
    let* view := lift (slice_from a x storage_offset) in
    as_strided view size stride.

(** [read_storage] of [add_storage_reader(typename, dtype)]. *)
Definition read_storage (dt : dtype) (read_obj : M value)
           (version : str) : M value :=
  let* size := read_long in
  np_fromfile dt size.

(** [reader] of [add_trivial_class_reader(typename)]. *)
Definition trivial_class_reader (typename : str) (read_obj : M value)
           (version : str) : M value :=
  let* obj := read_obj in
  alloc (OTorchObject typename obj).

(** [torch_readers[className](self, version)] *)
Definition call_reader (rd : class_reader) (className : str)
           (read_obj : M value) (version : str) : M value :=
  match rd with
  | TensorReader dt => read_tensor_generic dt read_obj version
  | StorageReader dt => read_storage dt read_obj version
  | TrivialClassReader => trivial_class_reader className read_obj version
  end.

(** ** [T7Reader.read_obj] *)

Definition TYPE_NIL : Z := 0.
Definition TYPE_NUMBER : Z := 1.
Definition TYPE_STRING : Z := 2.
Definition TYPE_TABLE : Z := 3.
Definition TYPE_TORCH : Z := 4.
Definition TYPE_BOOLEAN : Z := 5.
Definition TYPE_FUNCTION : Z := 6.
Definition TYPE_RECUR_FUNCTION : Z := 8.
Definition LEGACY_TYPE_RECUR_FUNCTION : Z := 7.

(** The function branch, for an index that is not yet in [self.objects]. *)
Definition read_function (index : Z) (read_obj : M value) : M value :=
  let* size := read_int in
  let* dumped := f_read size in
  let* upvalues := read_obj in
  let* obj := alloc (OLuaFunction size dumped upvalues) in
  let* _ := objects_set index obj in
  ret obj.

(** The version string and the class name of a torch object. *)
Definition read_class_name : M (str * str) :=
  let* version := read_string in
  if startswith version (str_of_string "V ") then
    match int_of_str h (partition_tail 32%N version) with
    | Some versionNumber =>
        let* className := read_string in
        ret (version, className)
    | None => raise ValueError
    end
  else ret (version, version).

(** The torch branch, for an index that is not yet in [self.objects]. *)
Definition read_torch (index : Z) (read_obj : M value) : M value :=
  let* '(version, className) := read_class_name in
  let* obj :=
    match torch_readers className with
    | None =>
        if negb (force_deserialize_classes o) then
          raise (T7ReaderException (UnsupportedTorchClass className))
        else
          let* x := read_obj in
          alloc (OTorchObject className x)
    | Some rd => call_reader rd className read_obj version
    end in
  let* _ := objects_set index obj in
  ret obj.

(** The bookkeeping of the list heuristic for one key: the pair is
    [(key_sum, keys_natural)]. *)
Definition heuristic_step (k : value) (acc : Z * bool) : Z * bool :=
  let '(key_sum, keys_natural) := acc in
  if use_list_heuristic o then
    match isinstance_int k with
    | Some z =>
        if z <=? 0 then (key_sum, false) else (key_sum + z, keys_natural)
    | None => (key_sum, false)
    end
  else acc.

(** [obj[k]] for the dict at [obj]. *)
Definition dict_getitem (obj k : value) : M value :=
  let* d := dict_items obj in
  let* s := get_store in
  if hashable (length s) s k then
    match dict_get (key_eqb (length s) s) d k with
    | Some v => ret v
    | None => raise KeyError
    end
  else raise TypeError.

(** The table branch, for an index that is not yet in [self.objects]. The
    dict is allocated before the pairs are read and updated in place; the
    list [lst] is allocated once it is complete, nothing being read while
    it is built. The index is stored last. *)
Definition read_table (index : Z) (read_obj : M value) : M value :=
  let* size := read_int in
  let* obj := alloc (ODict []) in
  let* '(key_sum, keys_natural) :=
    for_in (range size)
      (fun _ acc =>
         let* k := read_obj in
         let* v := read_obj in
         let* _ := dict_setitem obj k v in
         ret (heuristic_step k acc))
      (0, true) in
  let* obj :=
    if use_list_heuristic o then
      let* d := dict_items obj in
      let n := Z.of_nat (length d) in
      if keys_natural && (n * (n + 1) =? 2 * key_sum) then
        let* lst :=
          for_in (range (Z.of_nat (length d)))
            (fun i lst =>
               let* x := dict_getitem obj (VInt (i + 1)) in
               ret (lst ++ [x]))
            [] in
        alloc (OList lst)
      else ret obj
    else ret obj in
  let* _ := objects_set index obj in
  ret obj.

Definition is_function_type (typeidx : Z) : bool :=
  (typeidx =? TYPE_FUNCTION) || (typeidx =? TYPE_RECUR_FUNCTION)
  || (typeidx =? LEGACY_TYPE_RECUR_FUNCTION).

Definition is_indexed_type (typeidx : Z) : bool :=
  (typeidx =? TYPE_TABLE) || (typeidx =? TYPE_TORCH)
  || (typeidx =? TYPE_FUNCTION) || (typeidx =? TYPE_RECUR_FUNCTION)
  || (typeidx =? LEGACY_TYPE_RECUR_FUNCTION).

(** The body of [read_obj]; [read_obj] stands for the recursive calls. *)
Definition read_obj_body (read_obj : M value) : M value :=
  let* typeidx := read_int in
  if typeidx =? TYPE_NIL then ret VNone
  else if typeidx =? TYPE_NUMBER then
    let* x := read_double in
    if use_int_heuristic o && is_integer x then
      let* i := lift (int_of_float x) in ret (VInt i)
    else ret (VFloat x)
  else if typeidx =? TYPE_BOOLEAN then
    let* b := read_boolean in ret (VBool b)
  else if typeidx =? TYPE_STRING then
    let* s := read_string in ret (VStr s)
  else if is_indexed_type typeidx then
    let* index := read_int in
    let* loaded := objects_get index in
    match loaded with
    | Some obj => ret obj
    | None =>
        if is_function_type typeidx then read_function index read_obj
        else if typeidx =? TYPE_TORCH then read_torch index read_obj
        else read_table index read_obj
    end
  else raise (T7ReaderException UnknownObject).

(** [read_obj] with [fuel] levels of nesting. *)
Fixpoint read_obj (fuel : nat) : M value :=
  match fuel with
  | O => fun _ => OutOfFuel
  | S fuel' => read_obj_body (read_obj fuel')
  end.

End Reader.

(** [load(filename, **kwargs)] on the contents of the file. *)
(** ** The accessors of [hashable_uniq_dict] and [TorchObject] *)

(** [x.get(k)] for a value [x]. A dict answers with the value stored
    under [k], with [None] when there is none. A [TorchObject] has no
    attribute [get]: its [__getattr__] looks [get] up in the wrapped
    value, and what it finds is a value, which cannot be called. Nothing
    else has a [get]. *)
Fixpoint py_get (fuel : nat) (s : list object) (x k : value) : result value :=
  match x with
  | VRef a =>
      match s !! a with
      | Some (ODict d) =>
          if hashable (length s) s k then
            Ok (default VNone (dict_get (key_eqb (length s) s) d k))
          else Raise TypeError
      | Some (OTorchObject _ inner) =>
          match fuel with
          | O => OutOfFuel
          | S fuel' =>
              match py_get fuel' s inner (VStr (str_of_string "get")) with
              | Ok _ => Raise TypeError
              | Raise e => Raise e
              | OutOfFuel => OutOfFuel
              end
          end
      | _ => Raise AttributeError
      end
  | _ => Raise AttributeError
  end.

(** [hashable_uniq_dict.__getattr__(self, key)]: [self.get(key)]. *)
Definition hashable_uniq_dict_getattr (s : list object) (self : value)
           (key : str) : result value :=
  py_get (length s) s self (VStr key).

(** [TorchObject.__getitem__(self, k)]: [self._obj.get(k)]; [__getattr__]
    does the same with the name of the attribute. *)
Definition TorchObject_getitem (s : list object) (self k : value)
  : result value :=
  match self with
  | VRef a =>
      match s !! a with
      | Some (OTorchObject _ obj) => py_get (length s) s obj k
      | _ => Raise TypeError
      end
  | _ => Raise TypeError
  end.

(** [TorchObject.torch_typename(self)] *)
Definition torch_typename (s : list object) (self : value) : result str :=
  match self with
  | VRef a =>
      match s !! a with
      | Some (OTorchObject typename _) => Ok typename
      | _ => Raise TypeError
      end
  | _ => Raise TypeError
  end.

Definition new_reader (contents : list byte) : T7Reader :=
  mkT7Reader contents ∅ [].

Definition load (h : host) (o : options) (contents : list byte)
  : result (value * T7Reader) :=
  read_obj h o (S (length contents)) (new_reader contents).

(** ** Streams for the examples *)

Definition byte_of_Z (z : Z) : byte :=
  default x00 (Byte.of_N (Z.to_N (z mod 256))).

(** The [n] bytes of [z], little-endian, two's complement. *)
Fixpoint le_bytes (n : nat) (z : Z) : list byte :=
  match n with
  | O => []
  | S n' => byte_of_Z z :: le_bytes n' (z / 256)
  end.

Definition enc_int (z : Z) : list byte := le_bytes 4 z.

(** A Number: the tag and the eight bytes of the bit pattern. *)
Definition enc_number (bits : Z) : list byte :=
  enc_int TYPE_NUMBER ++ le_bytes 8 bits.

(** The doubles 1.0, 2.0, 3.0, 4.0 and 2.5. *)
Definition bits_1 : Z := 0x3FF0000000000000.
Definition bits_2 : Z := 0x4000000000000000.
Definition bits_3 : Z := 0x4008000000000000.
Definition bits_4 : Z := 0x4010000000000000.
Definition bits_2_5 : Z := 0x4004000000000000.

Definition ascii_bytes (s : string) : list byte :=
  map byte_of_ascii (list_ascii_of_string s).

(** A length-prefixed string. *)
Definition enc_string (s : string) : list byte :=
  enc_int (Z.of_nat (String.length s)) ++ ascii_bytes s.

(** Decimal digits with an optional sign: what [int(s)] accepts of the
    version numbers Torch writes. *)
Definition decimal_of_str (s : str) : option Z :=
  let digits (t : str) : option Z :=
    match t with
    | [] => None
    | _ =>
        fold_left
          (fun acc c =>
             match acc with
             | Some a =>
                 if ((48 <=? c) && (c <=? 57))%N
                 then Some (10 * a + (Z.of_N c - 48))
                 else None
             | None => None
             end)
          t (Some 0)
    end in
  match s with
  | 45%N :: t => option_map Z.opp (digits t)
  | 43%N :: t => digits t
  | _ => digits s
  end.

Definition linux64 : host := Host Long8 decimal_of_str Long8 32.
Definition windows : host := Host Long4 decimal_of_str Long8 32.

(** * Reasoning about reader computations *)

(** [wp b m Q r]: running [m] from [r] either raises or returns a value and
    a state that satisfy [Q]; running out of fuel is accepted only when
    [b] is set. *)
Definition wp {A} (b : bool) (m : M A) (Q : A -> T7Reader -> Prop)
           (r : T7Reader) : Prop :=
  match m r with
  | Ok (a, r') => Q a r'
  | Raise _ => True
  | OutOfFuel => b = true
  end.

(** [reads bs r r']: [r'] is [r] after the bytes [bs] were consumed;
    nothing else changed. *)
Definition reads (bs : list byte) (r r' : T7Reader) : Prop :=
  fileobj r = bs ++ fileobj r' /\ objects r' = objects r /\ store r' = store r.

(** What every successful [read_obj] guarantees: at least the four bytes
    of the discriminant were consumed and the objects that existed before
    are untouched. *)
Definition advanced (n : nat) (r r' : T7Reader) : Prop :=
  (length (fileobj r') + n <= length (fileobj r))%nat
  /\ store r `prefix_of` store r'.

(** ** The vocabulary of the statements *)

(** The value [struct.unpack] gives for a buffer of the right length. *)
Definition unpacked (c : fmt) (bs : list byte) : Z :=
  match c with
  | Fmt_f | Fmt_d => le_unsigned bs
  | _ => le_signed bs
  end.

(** The recursive calls of a [read_obj] that started at [r]: they happen
    after the discriminant was consumed, and they advance. *)
Definition rec_advances (b : bool) (rec : M value) (r : T7Reader) : Prop :=
  forall r1, advanced 4 r r1 -> wp b rec (fun _ r2 => advanced 4 r1 r2) r1.

(** The values [self.objects] holds are references: every object that has
    an index is allocated. *)
Definition is_ref (v : value) : Prop := exists a, v = VRef a.

Definition refs_only (m : gmap Z value) : Prop :=
  map_Forall (fun _ v => is_ref v) m.

(** A value that is no [int] proper (a [bool] is none). *)
Definition not_int (v : value) : Prop := forall z, v <> VInt z.

(** The recursive calls return no [int] and keep [self.objects] to
    references. *)
Definition rec_clean (rec : M value) : Prop :=
  forall r, refs_only (objects r) ->
            wp true rec (fun v r' => not_int v /\ refs_only (objects r')) r.









(** The width [read_long] reads. *)
Definition long_size (h : host) (o : options) : nat :=
  if force_8bytes_long o then 8%nat else long_bytes (sizeof_long h).

(** [float_is_Z x z]: the float [x] is the integer [z]; for a finite float
    [(-1)^s * m * 2^e = z], with the denominator cleared. *)
Definition float_is_Z (x : spec_float) (z : Z) : Prop :=
  match x with
  | S754_zero _ => z = 0
  | S754_finite s m e =>
      (if s then - z else z) * 2 ^ Z.max 0 (- e) = Zpos m * 2 ^ Z.max 0 e
  | S754_infinity _ | S754_nan => False
  end.

(** The empty array a degenerate tensor becomes. *)
Definition empty_array (dt : dtype) : ndarray :=
  NdArray dt None [] 0 [0] [itemsize dt].

(** Whether [x] is what [read_storage] builds: a flat array of [n]
    elements that owns its buffer. *)
Definition is_storage (x : ndarray) (n : Z) : Prop :=
  nd_owner x = None /\ nd_offset x = 0 /\ nd_shape x = [n]
  /\ nd_strides x = [itemsize (nd_dtype x)].

Definition sumZ (zs : list Z) : Z := foldr Z.add 0 zs.

(** Equality of keys that are [int]s proper. *)
Definition vint_eqb (k k' : value) : bool :=
  match k, k' with
  | VInt z, VInt w => z =? w
  | _, _ => false
  end.

Definition is_vint (k : value) : Prop := exists z, k = VInt z.

Definition key_Z (k : value) : Z :=
  match k with VInt z => z | _ => 0 end.

(** The keys of the entries [d], as integers. *)
Definition keysZ (d : list (value * value)) : list Z :=
  map (fun kv => key_Z (fst kv)) d.

Definition vint_keys (d : list (value * value)) : Prop :=
  Forall (fun kv => is_vint (fst kv)) d.

(** The dict after the pairs [kvs] were stored into [d0], in order. *)
Definition int_dict (kvs d0 : list (value * value)) : list (value * value) :=
  fold_left (fun d kv => dict_set vint_eqb d (fst kv) (snd kv)) kvs d0.

(** [table_run rec obj r kvs r']: from [r], the loop of [read_table] reads
    the pairs [kvs] one after the other, storing each into the dict [obj],
    and ends in [r']. *)
Inductive table_run (rec : M value) (obj : value)
  : T7Reader -> list (value * value) -> T7Reader -> Prop :=
| table_run_nil r : table_run rec obj r [] r
| table_run_cons r k r1 v r2 r3 kvs r' :
    rec r = Ok (k, r1) ->
    rec r1 = Ok (v, r2) ->
    dict_setitem obj k v r2 = Ok (tt, r3) ->
    table_run rec obj r3 kvs r' ->
    table_run rec obj r ((k, v) :: kvs) r'.

(** A key the heuristic counts: an [int] instance above zero. *)
Definition natural_key (k : value) : bool :=
  match isinstance_int k with
  | Some z => negb (z <=? 0)
  | None => false
  end.

(** What a key adds to [key_sum]. *)
Definition natural_value (k : value) : Z :=
  match isinstance_int k with
  | Some z => if z <=? 0 then 0 else z
  | None => 0
  end.

(** The keys are the integers [1..n], each once. *)
Definition list_like (keys : list value) : Prop :=
  (forall k, k ∈ keys -> exists z, k = VInt z /\ 0 < z)
  /\ NoDup keys
  /\ (forall z, VInt z ∈ keys <-> 1 <= z <= Z.of_nat (length keys)).

(** The reader over [bs], with [objs] loaded and [sto] allocated. *)
Definition reader_at (bs : list byte) (objs : gmap Z value)
           (sto : list object) : T7Reader :=
  mkT7Reader bs objs sto.

Definition str_a : value := VStr (str_of_string "a").
Definition str_b : value := VStr (str_of_string "b").
Definition str_c : value := VStr (str_of_string "c").

Definition enc_str (s : string) : list byte :=
  enc_int TYPE_STRING ++ enc_string s.

(** A table header: tag, index, number of pairs. *)
Definition enc_table (index size : Z) : list byte :=
  enc_int TYPE_TABLE ++ enc_int index ++ enc_int size.

(** The table [{1: "a", 2: "b", 3: "c"}]. *)
Definition table_abc : list byte :=
  enc_table 1 3
  ++ enc_number bits_1 ++ enc_str "a"
  ++ enc_number bits_2 ++ enc_str "b"
  ++ enc_number bits_3 ++ enc_str "c".

(** The table [{1: "a", 2: "b", 4: "c"}]: a gap in the keys. *)
Definition table_gap : list byte :=
  enc_table 1 3
  ++ enc_number bits_1 ++ enc_str "a"
  ++ enc_number bits_2 ++ enc_str "b"
  ++ enc_number bits_4 ++ enc_str "c".

Definition table_empty : list byte := enc_table 1 0.

(** A table with the single pair [1: "a"]. *)
Definition table_one : list byte :=
  enc_table 1 1 ++ enc_number bits_1 ++ enc_str "a".

(** A stream whose table holds the key 1 twice. *)
Definition table_dup : list byte :=
  enc_table 1 2
  ++ enc_number bits_1 ++ enc_str "a"
  ++ enc_number bits_1 ++ enc_str "b".

(** The table [{true: "a"}]. *)
Definition table_true : list byte :=
  enc_table 1 1 ++ (enc_int TYPE_BOOLEAN ++ enc_int 1) ++ enc_str "a".



(** Table 1 whose two entries are the same table 2. *)
Definition table_shared : list byte :=
  enc_table 1 2
  ++ enc_number bits_1 ++ enc_table 2 0
  ++ enc_number bits_2 ++ enc_int TYPE_TABLE ++ enc_int 2.

(** An instance of the unregistered class [nn.Foo] that wraps 4.0. *)
Definition unknown_class : list byte :=
  enc_int TYPE_TORCH ++ enc_int 1 ++ enc_string "nn.Foo" ++ enc_number bits_4.

(** A [torch.IntStorage] of the six elements 0..5, for a host whose
    [long] has eight bytes. *)
Definition storage_0_5 : list byte :=
  enc_int TYPE_TORCH ++ enc_int 2 ++ enc_string "V 1"
  ++ enc_string "torch.IntStorage" ++ le_bytes 8 6
  ++ enc_int 0 ++ enc_int 1 ++ enc_int 2 ++ enc_int 3 ++ enc_int 4 ++ enc_int 5.

(** The payload of a tensor of size [2, 3] over that storage, with the
    strides [s0, s1] and the 1-based offset 1. *)
Definition tensor_payload (s0 s1 : Z) : list byte :=
  enc_int 2 ++ le_bytes 8 2 ++ le_bytes 8 3 ++ le_bytes 8 s0 ++ le_bytes 8 s1
  ++ le_bytes 8 1 ++ storage_0_5.

Definition tensor_2x3 (s0 s1 : Z) : list byte :=
  enc_int TYPE_TORCH ++ enc_int 1 ++ enc_string "V 1"
  ++ enc_string "torch.IntTensor" ++ tensor_payload s0 s1.

(** A tensor over that storage with the sizes [d0, 3], the strides [3, 1]
    and the 1-based offset [off]. *)
Definition tensor_over (d0 off : Z) : list byte :=
  enc_int TYPE_TORCH ++ enc_int 1 ++ enc_string "V 1"
  ++ enc_string "torch.IntTensor"
  ++ enc_int 2 ++ le_bytes 8 d0 ++ le_bytes 8 3 ++ le_bytes 8 3 ++ le_bytes 8 1
  ++ le_bytes 8 off ++ storage_0_5.

(** A string of announced length 5 with two bytes of payload. *)
Definition short_string : list byte := enc_int 5 ++ ascii_bytes "ab".

(** A string of length 1 whose byte is not UTF-8. *)
Definition latin1_string : list byte := enc_int 1 ++ [xff].

(** Table 1 whose single key is the empty table 2. *)
Definition table_list_key : list byte :=
  enc_table 1 1 ++ enc_table 2 0 ++ enc_str "a".

(** The empty table 2, followed by a reference to it. *)
Definition table_then_ref : list byte :=
  enc_table 2 0 ++ enc_int TYPE_TABLE ++ enc_int 2.

(** A function of two bytes without upvalues. *)
Definition function_stream : list byte :=
  enc_int TYPE_FUNCTION ++ enc_int 1 ++ enc_int 2 ++ [x01; x02]
  ++ enc_int TYPE_NIL.

Definition no_list_heuristic : options := Options false true true false.

(** The double 1.0. *)
Definition float_1 : spec_float := S754_finite false 4503599627370496 (-52).

Definition no_int_heuristic : options := Options true false true false.
Definition strict_options : options := Options true true false false.

Definition storage_array : ndarray :=
  NdArray int32 None (drop 43 storage_0_5) 0 [6] [4].

Section WpRules.

Context {A B : Type}.

Lemma wp_ret b (a : A) (Q : A -> T7Reader -> Prop) r :
  Q a r -> wp b (ret a) Q r.
Proof. intros HQ. exact HQ. Qed.

Lemma wp_raise b e (Q : A -> T7Reader -> Prop) r : wp b (raise e) Q r.
Proof. exact I. Qed.

Lemma wp_bind b (m : M A) (k : A -> M B) (Q : B -> T7Reader -> Prop) r :
  wp b m (fun a r' => wp b (k a) Q r') r -> wp b (bind m k) Q r.
Proof.
  unfold wp, bind. destruct (m r) as [[a r']| |]; auto.
Qed.

Lemma wp_mono b (m : M A) (Q Q' : A -> T7Reader -> Prop) r :
  wp b m Q r -> (forall a r', Q a r' -> Q' a r') -> wp b m Q' r.
Proof.
  unfold wp. destruct (m r) as [[a r']| |]; auto.
Qed.

Lemma wp_lift b (x : result A) (Q : A -> T7Reader -> Prop) r :
  x <> OutOfFuel -> (forall a, x = Ok a -> Q a r) -> wp b (lift x) Q r.
Proof.
  unfold wp, lift. destruct x; intros Hx HQ; auto; congruence.
Qed.

Lemma wp_ok b (m : M A) (Q : A -> T7Reader -> Prop) r a r' :
  wp b m Q r -> m r = Ok (a, r') -> Q a r'.
Proof. unfold wp. intros H E. rewrite E in H. exact H. Qed.

Lemma wp_terminates (m : M A) (Q : A -> T7Reader -> Prop) r :
  wp false m Q r -> m r <> OutOfFuel.
Proof. unfold wp. intros H E. rewrite E in H. discriminate. Qed.

Lemma bind_ok (m : M A) (k : A -> M B) r a r' :
  m r = Ok (a, r') -> bind m k r = k a r'.
Proof. unfold bind. intros ->. reflexivity. Qed.

Lemma bind_raise (m : M A) (k : A -> M B) r e :
  m r = Raise e -> bind m k r = Raise e.
Proof. unfold bind. intros ->. reflexivity. Qed.

End WpRules.

Lemma reads_refl r : reads [] r r.
Proof. repeat split. Qed.

Lemma reads_trans bs cs r r1 r2 :
  reads bs r r1 -> reads cs r1 r2 -> reads (bs ++ cs) r r2.
Proof.
  intros (F1 & O1 & S1) (F2 & O2 & S2). repeat split.
  - rewrite F1, F2. apply app_assoc.
  - congruence.
  - congruence.
Qed.

Lemma reads_length bs r r' :
  reads bs r r' ->
  length (fileobj r) = (length bs + length (fileobj r'))%nat.
Proof. intros (F & _). rewrite F. apply length_app. Qed.

Lemma reads_drop bs r r' :
  reads bs r r' -> fileobj r' = drop (length bs) (fileobj r).
Proof. intros (F & _). rewrite F. symmetry. apply drop_app_length. Qed.

Lemma reads_advanced bs r r' n :
  reads bs r r' -> (n <= length bs)%nat -> advanced n r r'.
Proof.
  intros H Hn. split.
  - rewrite (reads_length _ _ _ H). lia.
  - destruct H as (_ & _ & ->). reflexivity.
Qed.

Lemma advanced_trans n m r r1 r2 :
  advanced n r r1 -> advanced m r1 r2 -> advanced (n + m) r r2.
Proof.
  intros [L1 P1] [L2 P2]. split; [lia | by etrans].
Qed.

Lemma advanced_weaken n m r r' :
  advanced n r r' -> (m <= n)%nat -> advanced m r r'.
Proof. intros [L P] H. split; [lia | done]. Qed.

(** ** The primitive reads *)

Section PrimitiveFacts.

Context (h : host) (o : options).

Lemma f_read_nat (n : nat) r :
  f_read (Z.of_nat n) r =
  Ok (take n (fileobj r), mkT7Reader (drop n (fileobj r)) (objects r) (store r)).
Proof.
  unfold f_read.
  destruct (Z.ltb_spec (Z.of_nat n) (-1)); [lia|].
  destruct (Z.eqb_spec (Z.of_nat n) (-1)); [lia|].
  by rewrite Nat2Z.id.
Qed.

Lemma f_read_reads size r bs r' :
  f_read size r = Ok (bs, r') -> reads bs r r'.
Proof.
  unfold f_read.
  destruct (size <? -1); [discriminate|].
  destruct (size =? -1); intros [= <- <-]; repeat split; simpl.
  - by rewrite app_nil_r.
  - by rewrite take_drop.
Qed.

Lemma f_read_total size r : f_read size r <> OutOfFuel.
Proof.
  unfold f_read. destruct (size <? -1); [discriminate|].
  destruct (size =? -1); discriminate.
Qed.

Lemma wp_f_read b size r :
  wp b (f_read size) (fun bs r' => reads bs r r') r.
Proof.
  unfold wp. destruct (f_read size r) as [[bs r']| |] eqn:E; auto.
  - eapply f_read_reads; eauto.
  - by apply f_read_total in E.
Qed.

Lemma _read_enough c r :
  (calcsize h c <= length (fileobj r))%nat ->
  _read h c r =
  Ok (unpacked c (take (calcsize h c) (fileobj r)),
      mkT7Reader (drop (calcsize h c) (fileobj r)) (objects r) (store r)).
Proof.
  intros Hlen. unfold _read.
  rewrite (bind_ok _ _ _ _ _ (f_read_nat _ r)).
  unfold lift, struct_unpack.
  rewrite length_take, Nat.min_l by lia.
  rewrite Nat.eqb_refl. by destruct c.
Qed.

Lemma _read_short c r :
  (length (fileobj r) < calcsize h c)%nat ->
  _read h c r = Raise StructError.
Proof.
  intros Hlen. unfold _read.
  rewrite (bind_ok _ _ _ _ _ (f_read_nat _ r)).
  unfold lift, struct_unpack.
  rewrite length_take, Nat.min_r by lia.
  destruct (Nat.eqb_spec (length (fileobj r)) (calcsize h c)); [lia|done].
Qed.

Lemma _read_ok c r z r' :
  _read h c r = Ok (z, r') ->
  reads (take (calcsize h c) (fileobj r)) r r'
  /\ length (take (calcsize h c) (fileobj r)) = calcsize h c
  /\ z = unpacked c (take (calcsize h c) (fileobj r)).
Proof.
  intros E.
  destruct (Nat.le_gt_cases (calcsize h c) (length (fileobj r))) as [Hl|Hl].
  - rewrite (_read_enough c r Hl) in E. injection E as <- <-.
    repeat split; simpl.
    + by rewrite take_drop.
    + rewrite length_take. lia.
  - rewrite (_read_short c r Hl) in E. discriminate.
Qed.

Lemma _read_total c r : _read h c r <> OutOfFuel.
Proof.
  destruct (Nat.le_gt_cases (calcsize h c) (length (fileobj r))) as [Hl|Hl].
  - by rewrite (_read_enough c r Hl).
  - by rewrite (_read_short c r Hl).
Qed.

Lemma wp_read b c r :
  wp b (_read h c)
     (fun _ r' => exists bs, reads bs r r' /\ length bs = calcsize h c) r.
Proof.
  unfold wp. destruct (_read h c r) as [[z r']| |] eqn:E; auto.
  - apply _read_ok in E as (H1 & H2 & _). eauto.
  - by apply _read_total in E.
Qed.

Lemma read_int_ok r z r' :
  read_int h r = Ok (z, r') ->
  reads (take 4 (fileobj r)) r r' /\ length (take 4 (fileobj r)) = 4%nat.
Proof.
  intros E. apply _read_ok in E as (H1 & H2 & _). auto.
Qed.

Lemma wp_read_int b r :
  wp b (read_int h)
     (fun _ r' => exists bs, reads bs r r' /\ length bs = 4%nat) r.
Proof. apply (wp_read b Fmt_i). Qed.

Lemma wp_read_long b r :
  wp b (read_long h o) (fun _ r' => exists bs, reads bs r r') r.
Proof.
  unfold read_long. destruct (force_8bytes_long o);
    (eapply wp_mono; [apply wp_read|]); intros ? ? (bs & ? & _); eauto.
Qed.

End PrimitiveFacts.

(** ** Every operation of the reader advances *)

Lemma wp_bind' {A B} b (m : M A) (k : A -> M B) P Q r :
  wp b m P r -> (forall a r', P a r' -> wp b (k a) Q r') ->
  wp b (bind m k) Q r.
Proof.
  intros Hm Hk. apply wp_bind. eapply wp_mono; [exact Hm|]. exact Hk.
Qed.

Lemma advanced_refl r : advanced 0 r r.
Proof. split; [lia | reflexivity]. Qed.

Lemma advanced_step n m r r1 r2 :
  advanced n r r1 -> advanced m r1 r2 -> advanced n r r2.
Proof.
  intros H1 H2.
  eapply advanced_weaken; [eapply advanced_trans; eauto | lia].
Qed.

Lemma advanced_reads n bs r r1 r2 :
  advanced n r r1 -> reads bs r1 r2 -> advanced n r r2.
Proof.
  intros H1 H2. eapply advanced_step; [exact H1|].
  eapply (reads_advanced _ _ _ 0); [exact H2 | lia].
Qed.

Lemma wp_for_in {A B} b (l : list B) (body : B -> A -> M A)
      (I : A -> T7Reader -> Prop) acc r :
  (forall x acc r, I acc r -> wp b (body x acc) I r) ->
  I acc r -> wp b (for_in l body acc) I r.
Proof.
  intros Hbody. revert acc r.
  induction l as [|x l IH]; intros acc r HI; simpl.
  - by apply wp_ret.
  - eapply wp_bind'; [by apply Hbody|]. intros acc' r' HI'. by apply IH.
Qed.

Lemma wp_alloc b ob r :
  wp b (alloc ob)
     (fun v r' => v = VRef (length (store r)) /\ fileobj r' = fileobj r
                  /\ objects r' = objects r /\ store r' = store r ++ [ob]) r.
Proof. by repeat split. Qed.

Lemma wp_alloc_advanced b ob r :
  wp b (alloc ob) (fun _ r' => advanced 0 r r') r.
Proof.
  eapply wp_mono; [apply wp_alloc|]. intros v r' (_ & F & _ & S).
  split; [rewrite F; lia | rewrite S; by apply prefix_app_r].
Qed.

Lemma wp_objects_set b index obj r :
  wp b (objects_set index obj) (fun _ r' => advanced 0 r r') r.
Proof. split; simpl; [lia | reflexivity]. Qed.

Lemma wp_objects_get b index r :
  wp b (objects_get index) (fun v r' => r' = r /\ v = objects r !! index) r.
Proof. by split. Qed.

Lemma wp_get_store b r :
  wp b get_store (fun s r' => r' = r /\ s = store r) r.
Proof. by split. Qed.

Lemma wp_dict_items b obj r :
  wp b (dict_items obj) (fun _ r' => r' = r) r.
Proof.
  unfold wp, dict_items. destruct obj; try exact I.
  destruct (store r !! a) as [[]|]; try exact I. reflexivity.
Qed.

Lemma wp_dict_setitem b a k v r :
  wp b (dict_setitem (VRef a) k v)
     (fun _ r' => fileobj r' = fileobj r /\ objects r' = objects r
                  /\ exists ob, store r' = <[a := ob]> (store r)) r.
Proof.
  unfold wp, dict_setitem. destruct (store r !! a) as [[]|]; try exact I.
  destruct (hashable _ _ k); [|exact I]. simpl. eauto.
Qed.

Lemma wp_dict_getitem b obj k r :
  wp b (dict_getitem obj k) (fun _ r' => r' = r) r.
Proof.
  unfold dict_getitem.
  eapply wp_bind'; [apply wp_dict_items|]. intros d r1 ->.
  eapply wp_bind'; [apply wp_get_store|]. intros s r1 [-> ->].
  destruct (hashable _ _ k); [|apply wp_raise].
  destruct (dict_get _ d k); [by apply wp_ret | apply wp_raise].
Qed.

Lemma prefix_insert_ge {X} (l s : list X) a x :
  l `prefix_of` s -> (length l <= a)%nat -> l `prefix_of` <[a := x]> s.
Proof.
  intros [t ->] Ha. exists (<[(a - length l)%nat := x]> t).
  by rewrite insert_app_r_alt.
Qed.

Section Advances.

Context (h : host) (o : options).

Lemma wp_read_advanced b c r :
  wp b (_read h c) (fun _ r' => advanced (calcsize h c) r r') r.
Proof.
  eapply wp_mono; [apply wp_read|]. intros z r' (bs & H & L).
  eapply reads_advanced; [exact H | lia].
Qed.

Lemma wp_read_int_advanced b r :
  wp b (read_int h) (fun _ r' => advanced 4 r r') r.
Proof. apply (wp_read_advanced b Fmt_i). Qed.

Lemma wp_f_read_advanced b size r :
  wp b (f_read size) (fun _ r' => advanced 0 r r') r.
Proof.
  eapply wp_mono; [apply wp_f_read|]. intros bs r' H.
  eapply reads_advanced; [exact H | lia].
Qed.

Lemma wp_read_long_advanced b r :
  wp b (read_long h o) (fun _ r' => advanced 0 r r') r.
Proof.
  eapply wp_mono; [apply wp_read_long|]. intros z r' (bs & H).
  eapply reads_advanced; [exact H | lia].
Qed.

Lemma wp_read_string_advanced b r :
  wp b (read_string h) (fun _ r' => advanced 4 r r') r.
Proof.
  unfold read_string.
  eapply wp_bind'; [apply wp_read_int_advanced|]. intros size r1 H1.
  eapply wp_bind'; [apply wp_f_read_advanced|]. intros bs r2 H2.
  destruct (utf8_decode bs); [|apply wp_raise].
  apply wp_ret. exact (advanced_step _ _ _ _ _ H1 H2).
Qed.

Lemma wp_array_fromfile_advanced b n r :
  wp b (array_fromfile h n) (fun _ r' => advanced 0 r r') r.
Proof.
  unfold array_fromfile. destruct (n <? 0); [apply wp_raise|].
  eapply wp_bind'; [apply wp_f_read_advanced|]. intros bs r1 H1.
  destruct (negb _); [apply wp_raise|].
  destruct (negb _); [apply wp_raise|].
  by apply wp_ret.
Qed.

Lemma wp_read_long_array_advanced b n r :
  wp b (read_long_array h o n) (fun _ r' => advanced 0 r r') r.
Proof.
  unfold read_long_array. destruct (force_8bytes_long o).
  - apply (wp_for_in b _ _ (fun _ r' => advanced 0 r r')).
    + intros _ lst r1 H1.
      eapply wp_bind'; [apply wp_read_long_advanced|]. intros x r2 H2.
      apply wp_ret. exact (advanced_step _ _ _ _ _ H1 H2).
    + apply advanced_refl.
  - apply wp_array_fromfile_advanced.
Qed.

Lemma wp_np_empty0_advanced b dt r :
  wp b (np_empty0 dt) (fun _ r' => advanced 0 r r') r.
Proof. apply wp_alloc_advanced. Qed.

Lemma wp_np_fromfile_advanced b dt count r :
  wp b (np_fromfile dt count) (fun _ r' => advanced 0 r r') r.
Proof.
  unfold wp, np_fromfile, alloc, advanced. simpl. split.
  - rewrite length_drop. lia.
  - by apply prefix_app_r.
Qed.

Lemma wp_get_ndarray b storage r :
  wp b (get_ndarray storage) (fun _ r' => r' = r) r.
Proof.
  unfold wp, get_ndarray. destruct storage; try exact I.
  destruct (store r !! a) as [[]|]; try exact I. reflexivity.
Qed.

Lemma wp_as_strided_advanced b x shape strides r :
  wp b (as_strided h x shape strides) (fun _ r' => advanced 0 r r') r.
Proof.
  unfold as_strided. destruct (np_accepts _ _ _ _); [|apply wp_raise].
  apply wp_alloc_advanced.
Qed.

Lemma slice_from_total a x k : slice_from a x k <> OutOfFuel.
Proof.
  unfold slice_from. destruct (nd_shape x); [done|].
  destruct (nd_strides x); done.
Qed.

Lemma int_of_float_total x : int_of_float x <> OutOfFuel.
Proof. by destruct x. Qed.

Lemma wp_rec b rec r r1 :
  rec_advances b rec r -> advanced 4 r r1 ->
  wp b rec (fun _ r2 => advanced 4 r r2) r1.
Proof.
  intros Hrec H1. eapply wp_mono; [by apply Hrec|].
  intros v r2 H2. cbv beta in *; eauto 10 using advanced_step.
Qed.

Lemma wp_read_tensor_generic b dt rec version r r1 :
  rec_advances b rec r -> advanced 4 r r1 ->
  wp b (read_tensor_generic h o dt rec version)
     (fun _ r' => advanced 4 r r') r1.
Proof.
  intros Hrec H1. unfold read_tensor_generic.
  eapply wp_bind'; [apply wp_read_int_advanced|]. intros ndim r2 H2.
  eapply wp_bind'; [apply wp_read_long_array_advanced|]. intros size r3 H3.
  eapply wp_bind'; [apply wp_read_long_array_advanced|]. intros stride r4 H4.
  eapply wp_bind'; [apply wp_read_long_advanced|]. intros l r5 H5.
  assert (advanced 4 r r5) as H15 by (cbv beta in *; eauto 10 using advanced_step).
  eapply wp_bind'; [by apply (wp_rec b rec r r5)|]. intros storage r6 H6.
  destruct (_ || _).
  - eapply wp_mono; [apply wp_np_empty0_advanced|].
    intros v r7 H7. cbv beta in *; eauto 10 using advanced_step.
  - eapply wp_bind'; [apply wp_get_ndarray|]. intros [a x] r7 ->.
    eapply wp_bind'.
    { apply wp_lift with (Q := fun _ r' => r' = r6);
        [apply slice_from_total | done]. }
    intros view r7 ->.
    eapply wp_mono; [apply wp_as_strided_advanced|].
    intros v r7 H7. cbv beta in *; eauto 10 using advanced_step.
Qed.

Lemma wp_read_storage b dt rec version r r1 :
  advanced 4 r r1 ->
  wp b (read_storage h o dt rec version) (fun _ r' => advanced 4 r r') r1.
Proof.
  intros H1. unfold read_storage.
  eapply wp_bind'; [apply wp_read_long_advanced|]. intros size r2 H2.
  eapply wp_mono; [apply wp_np_fromfile_advanced|].
  intros v r3 H3. cbv beta in *; eauto 10 using advanced_step.
Qed.

Lemma wp_trivial_class_reader b typename rec version r r1 :
  rec_advances b rec r -> advanced 4 r r1 ->
  wp b (trivial_class_reader typename rec version)
     (fun _ r' => advanced 4 r r') r1.
Proof.
  intros Hrec H1. unfold trivial_class_reader.
  eapply wp_bind'; [by apply (wp_rec b rec r r1)|]. intros obj r2 H2.
  eapply wp_mono; [apply wp_alloc_advanced|].
  intros v r3 H3. cbv beta in *; eauto 10 using advanced_step.
Qed.

Lemma wp_call_reader b rd className rec version r r1 :
  rec_advances b rec r -> advanced 4 r r1 ->
  wp b (call_reader h o rd className rec version)
     (fun _ r' => advanced 4 r r') r1.
Proof.
  intros Hrec H1. destruct rd; simpl.
  - by apply wp_read_tensor_generic.
  - by apply wp_read_storage.
  - by apply wp_trivial_class_reader.
Qed.

End Advances.

Section ReadObjAdvances.

Context (h : host) (o : options).

Ltac adv := cbv beta in *; eauto 10 using advanced_step.

Lemma wp_read_function b index rec r r1 :
  rec_advances b rec r -> advanced 4 r r1 ->
  wp b (read_function h index rec) (fun _ r' => advanced 4 r r') r1.
Proof.
  intros Hrec H1. unfold read_function.
  eapply wp_bind'; [apply wp_read_int_advanced|]. intros size r2 H2.
  eapply wp_bind'; [apply wp_f_read_advanced|]. intros dumped r3 H3.
  assert (advanced 4 r r3) as H13 by adv.
  eapply wp_bind'; [by apply (wp_rec b rec r r3)|]. intros up r4 H4.
  eapply wp_bind'; [apply wp_alloc_advanced|]. intros obj r5 H5.
  eapply wp_bind'; [apply wp_objects_set|]. intros [] r6 H6.
  apply wp_ret. adv.
Qed.

Lemma wp_read_class_name b r :
  wp b (read_class_name h) (fun _ r' => advanced 4 r r') r.
Proof.
  unfold read_class_name.
  eapply wp_bind'; [apply wp_read_string_advanced|]. intros version r1 H1.
  destruct (startswith _ _); [|by apply wp_ret].
  destruct (int_of_str h _); [|apply wp_raise].
  eapply wp_bind'; [apply wp_read_string_advanced|]. intros cn r2 H2.
  apply wp_ret. adv.
Qed.

Lemma wp_read_torch b index rec r r1 :
  rec_advances b rec r -> advanced 4 r r1 ->
  wp b (read_torch h o index rec) (fun _ r' => advanced 4 r r') r1.
Proof.
  intros Hrec H1. unfold read_torch.
  eapply wp_bind'; [apply wp_read_class_name|].
  intros [version className] r2 H2.
  assert (advanced 4 r r2) as H12 by adv.
  eapply wp_bind' with (P := fun _ r' => advanced 4 r r').
  - destruct (torch_readers className) as [rd|].
    + by apply wp_call_reader.
    + destruct (negb _); [apply wp_raise|].
      eapply wp_bind'; [by apply (wp_rec b rec r r2)|]. intros x r3 H3.
      eapply wp_mono; [apply wp_alloc_advanced|]. intros v r4 H4. adv.
  - intros obj r3 H3.
    eapply wp_bind'; [apply wp_objects_set|]. intros [] r4 H4.
    apply wp_ret. adv.
Qed.

Lemma wp_read_table b index rec r r1 :
  rec_advances b rec r -> advanced 4 r r1 ->
  wp b (read_table h o index rec) (fun _ r' => advanced 4 r r') r1.
Proof.
  intros Hrec H1. unfold read_table.
  eapply wp_bind'; [apply wp_read_int_advanced|]. intros size r2 H2.
  assert (advanced 4 r r2) as H12 by adv.
  eapply wp_bind'; [apply wp_alloc|]. intros obj r3 (-> & F3 & _ & S3).
  assert (advanced 4 r r3) as H13.
  { destruct H12 as [L P]. split; [rewrite F3; lia|].
    rewrite S3. by apply prefix_app_r. }
  assert (length (store r) <= length (store r2))%nat as Ha.
  { destruct H12 as [_ P]. by apply prefix_length. }
  eapply wp_bind' with (P := fun _ r' => advanced 4 r r').
  { apply wp_for_in; [|exact H13]. intros _ acc ri Hi.
    eapply wp_bind'; [by apply (wp_rec b rec r ri)|]. intros k rj Hj.
    eapply wp_bind'; [by apply (wp_rec b rec r rj)|]. intros v rk Hk.
    eapply wp_bind'; [apply wp_dict_setitem|].
    intros [] rl (Fl & _ & ob & Sl). apply wp_ret.
    destruct Hk as [L P]. split; [rewrite Fl; lia|].
    rewrite Sl. by apply prefix_insert_ge. }
  intros [key_sum keys_natural] r4 H4.
  eapply wp_bind' with (P := fun _ r' => advanced 4 r r').
  - destruct (use_list_heuristic o); [|by apply wp_ret].
    eapply wp_bind'; [apply wp_dict_items|]. intros d r5 ->.
    destruct (_ && _); [|by apply wp_ret].
    eapply wp_bind' with (P := fun _ r' => r' = r4).
    + apply wp_for_in; [|done]. intros i lst ri ->.
      eapply wp_bind'; [apply wp_dict_getitem|]. intros x rj ->.
      by apply wp_ret.
    + intros lst r5 ->.
      eapply wp_mono; [apply wp_alloc_advanced|]. intros v r5 H5. adv.
  - intros obj r5 H5.
    eapply wp_bind'; [apply wp_objects_set|]. intros [] r6 H6.
    apply wp_ret. adv.
Qed.

Lemma wp_read_double_advanced b r :
  wp b (read_double h) (fun _ r' => advanced 4 r r') r.
Proof.
  unfold read_double.
  eapply wp_bind'; [apply (wp_read_advanced h b Fmt_d)|]. intros bits r1 H1.
  apply wp_ret. eapply advanced_weaken; [exact H1 | simpl; lia].
Qed.

Lemma wp_read_boolean_advanced b r :
  wp b (read_boolean h) (fun _ r' => advanced 4 r r') r.
Proof.
  unfold read_boolean.
  eapply wp_bind'; [apply wp_read_int_advanced|]. intros i r1 H1.
  by apply wp_ret.
Qed.

Lemma wp_read_obj_body b rec r :
  rec_advances b rec r ->
  wp b (read_obj_body h o rec) (fun _ r' => advanced 4 r r') r.
Proof.
  intros Hrec. unfold read_obj_body.
  eapply wp_bind'; [apply wp_read_int_advanced|]. intros typeidx r1 H1.
  destruct (typeidx =? TYPE_NIL); [by apply wp_ret|].
  destruct (typeidx =? TYPE_NUMBER).
  { eapply wp_bind'; [apply wp_read_double_advanced|]. intros x r2 H2.
    destruct (_ && _); [|apply wp_ret; adv].
    eapply wp_bind'.
    { apply wp_lift with (Q := fun _ r' => r' = r2);
        [apply int_of_float_total | done]. }
    intros i r3 ->. apply wp_ret. adv. }
  destruct (typeidx =? TYPE_BOOLEAN).
  { eapply wp_bind'; [apply wp_read_boolean_advanced|]. intros i r2 H2.
    apply wp_ret. adv. }
  destruct (typeidx =? TYPE_STRING).
  { eapply wp_bind'; [apply wp_read_string_advanced|]. intros s r2 H2.
    apply wp_ret. adv. }
  destruct (is_indexed_type typeidx); [|apply wp_raise].
  eapply wp_bind'; [apply wp_read_int_advanced|]. intros index r2 H2.
  assert (advanced 4 r r2) as H12 by adv.
  eapply wp_bind'; [apply wp_objects_get|]. intros loaded r3 [-> ->].
  destruct (objects r2 !! index); [by apply wp_ret|].
  destruct (is_function_type typeidx); [by apply wp_read_function|].
  destruct (typeidx =? TYPE_TORCH);
    [by apply wp_read_torch | by apply wp_read_table].
Qed.

(** [read_obj] advances whenever it returns, with any fuel; and it does not
    run out of fuel when the fuel exceeds the number of bytes left. *)
Lemma wp_read_obj b fuel r :
  b = true \/ (length (fileobj r) < fuel)%nat ->
  wp b (read_obj h o fuel) (fun _ r' => advanced 4 r r') r.
Proof.
  revert r. induction fuel as [|fuel IH]; intros r Hb.
  - unfold wp. simpl. destruct Hb as [Hb|Hb]; [done | lia].
  - simpl. apply wp_read_obj_body. intros r1 [L1 _]. apply IH.
    destruct Hb as [Hb|Hb]; [by left | right; lia].
Qed.

Lemma read_obj_advanced fuel r v r' :
  read_obj h o fuel r = Ok (v, r') -> advanced 4 r r'.
Proof.
  intros E.
  exact (wp_ok true _ _ _ _ _ (wp_read_obj true fuel r (or_introl eq_refl)) E).
Qed.

(** Termination: a fuel above the number of bytes left is always enough. *)
Lemma read_obj_fuel_enough fuel r :
  (length (fileobj r) < fuel)%nat -> read_obj h o fuel r <> OutOfFuel.
Proof.
  intros Hf. eapply wp_terminates. apply wp_read_obj. by right.
Qed.

End ReadObjAdvances.

(** * The claims *)

Lemma float_is_Z_int x z : float_is_Z x z -> int_of_float x = Ok z.
Proof.
  destruct x as [s|s| |s m e]; simpl; try done.
  - by intros ->.
  - intros H. f_equal.
    destruct (Z.leb_spec 0 e) as [He|He].
    + rewrite Z.max_l, Z.max_r in H by lia.
      rewrite Z.pow_0_r, Z.mul_1_r in H. destruct s; lia.
    + rewrite Z.max_r, Z.max_l in H by lia.
      rewrite Z.pow_0_r, Z.mul_1_r in H.
      assert (0 < 2 ^ (- e)) as Hp by (apply Z.pow_pos_nonneg; lia).
      rewrite <- H. rewrite Z.div_mul by lia. destruct s; lia.
Qed.

Lemma is_integer_spec x : is_integer x = true <-> exists z, float_is_Z x z.
Proof.
  destruct x as [s|s| |s m e]; simpl.
  - split; eauto.
  - split; [done | by intros [z []]].
  - split; [done | by intros [z []]].
  - destruct (Z.leb_spec 0 e) as [He|He].
    + split; [intros _ | done].
      exists (if s then - (Zpos m * 2 ^ e) else Zpos m * 2 ^ e).
      rewrite Z.max_l, Z.max_r by lia. rewrite Z.pow_0_r. destruct s; lia.
    + rewrite Z.max_r, Z.max_l by lia. rewrite Z.pow_0_r, Z.mul_1_r.
      assert (0 < 2 ^ (- e)) as Hp by (apply Z.pow_pos_nonneg; lia).
      rewrite Z.eqb_eq. split.
      * intros Hm. apply Z.mod_divide in Hm as [q Hq]; [|lia].
        exists (if s then - q else q). destruct s; lia.
      * intros [z Hz]. apply Z.mod_divide; [lia|].
        exists (if s then - z else z). lia.
Qed.

Section Claims.

Context (h : host) (o : options).

Lemma read_obj_S fuel :
  read_obj h o (S fuel) = read_obj_body h o (read_obj h o fuel).
Proof. reflexivity. Qed.

Lemma indexed_not_inline typeidx :
  is_indexed_type typeidx = true ->
  (typeidx =? TYPE_NIL) = false /\ (typeidx =? TYPE_NUMBER) = false
  /\ (typeidx =? TYPE_BOOLEAN) = false /\ (typeidx =? TYPE_STRING) = false.
Proof.
  intros H. repeat split; apply Z.eqb_neq; intros ->; discriminate.
Qed.

(** The header of an indexed object whose index is already loaded. *)
Lemma read_obj_body_loaded rec r typeidx r1 index r2 obj :
  read_int h r = Ok (typeidx, r1) ->
  is_indexed_type typeidx = true ->
  read_int h r1 = Ok (index, r2) ->
  objects r2 !! index = Some obj ->
  read_obj_body h o rec r = Ok (obj, r2).
Proof.
  intros E1 Hi E2 Hl. unfold read_obj_body.
  rewrite (bind_ok _ _ _ _ _ E1).
  destruct (indexed_not_inline _ Hi) as (-> & -> & -> & ->). rewrite Hi.
  rewrite (bind_ok _ _ _ _ _ E2). unfold bind, objects_get. by rewrite Hl.
Qed.

(** The header of an indexed object whose index is new. *)
Lemma read_obj_body_new rec r typeidx r1 index r2 :
  read_int h r = Ok (typeidx, r1) ->
  is_indexed_type typeidx = true ->
  read_int h r1 = Ok (index, r2) ->
  objects r2 !! index = None ->
  read_obj_body h o rec r =
  (if is_function_type typeidx then read_function h index rec
   else if typeidx =? TYPE_TORCH then read_torch h o index rec
   else read_table h o index rec) r2.
Proof.
  intros E1 Hi E2 Hl. unfold read_obj_body.
  rewrite (bind_ok _ _ _ _ _ E1).
  destruct (indexed_not_inline _ Hi) as (-> & -> & -> & ->). rewrite Hi.
  rewrite (bind_ok _ _ _ _ _ E2). unfold bind at 1, objects_get. by rewrite Hl.
Qed.

Lemma read_int_same r z r' :
  read_int h r = Ok (z, r') ->
  fileobj r' = drop 4 (fileobj r) /\ (4 <= length (fileobj r))%nat
  /\ objects r' = objects r /\ store r' = store r.
Proof.
  intros E. apply read_int_ok in E as [H L].
  pose proof (reads_drop _ _ _ H) as D. rewrite L in D.
  pose proof (reads_length _ _ _ H) as Hl. rewrite L in Hl.
  destruct H as (_ & O & S). repeat split; auto. lia.
Qed.

(** C2. When an object index occurs again after its object was read,
    [read_obj] returns the very value stored in [self.objects] for that
    index (the same reference into the store, whose contents are
    untouched) and consumes the eight bytes of the discriminant and of the
    index, and nothing more. *)
Theorem read_obj_repeated_index fuel r typeidx r1 index r2 obj :
  read_int h r = Ok (typeidx, r1) ->
  is_indexed_type typeidx = true ->
  read_int h r1 = Ok (index, r2) ->
  objects r !! index = Some obj ->
  read_obj h o (S fuel) r = Ok (obj, r2)
  /\ (8 <= length (fileobj r))%nat
  /\ fileobj r2 = drop 8 (fileobj r)
  /\ objects r2 = objects r
  /\ store r2 = store r.
Proof.
  intros E1 Hi E2 Hl.
  destruct (read_int_same _ _ _ E1) as (F1 & L1 & O1 & S1).
  destruct (read_int_same _ _ _ E2) as (F2 & L2 & O2 & S2).
  assert (objects r2 = objects r) as HO by congruence.
  split; [|repeat split].
  - rewrite read_obj_S. eapply read_obj_body_loaded; eauto. by rewrite HO.
  - rewrite F1, length_drop in L2. lia.
  - rewrite F2, F1, drop_drop. done.
  - exact HO.
  - congruence.
Qed.

(** C9. A Number payload [x] is returned as the integer it denotes when
    the int heuristic is on and [x] has no fractional part, and as the
    float [x] itself when the heuristic is off or [x] is no integer. *)
Theorem read_obj_number fuel r r1 x r2 :
  read_int h r = Ok (TYPE_NUMBER, r1) ->
  read_double h r1 = Ok (x, r2) ->
  (forall z, use_int_heuristic o = true -> float_is_Z x z ->
             read_obj h o (S fuel) r = Ok (VInt z, r2))
  /\ (use_int_heuristic o = false \/ (forall z, ~ float_is_Z x z) ->
      read_obj h o (S fuel) r = Ok (VFloat x, r2)).
Proof.
  intros E1 E2. rewrite read_obj_S. unfold read_obj_body.
  rewrite (bind_ok _ _ _ _ _ E1).
  change (TYPE_NUMBER =? TYPE_NIL) with false.
  change (TYPE_NUMBER =? TYPE_NUMBER) with true. cbv iota.
  rewrite (bind_ok _ _ _ _ _ E2). split.
  - intros z Hu Hz.
    assert (is_integer x = true) as -> by (apply is_integer_spec; eauto).
    rewrite Hu. simpl. unfold bind, lift.
    by rewrite (float_is_Z_int _ _ Hz).
  - intros [Hu|Hx].
    + by rewrite Hu.
    + assert (is_integer x = false) as ->.
      { apply not_true_is_false. intros Hi.
        apply is_integer_spec in Hi as [z Hz]. by apply (Hx z). }
      by rewrite andb_false_r.
Qed.

(** C8, as the code has it. A [read_long] that returns has consumed
    exactly eight bytes when [force_8bytes_long] is set, and otherwise
    exactly the bytes of the host's C [long] (four or eight); the width
    depends on the flag and the host, never on the stream. *)
Theorem read_long_width r v r' :
  read_long h o r = Ok (v, r') ->
  let w := if force_8bytes_long o then 8%nat
           else long_bytes (sizeof_long h) in
  (w <= length (fileobj r))%nat
  /\ fileobj r' = drop w (fileobj r)
  /\ v = le_signed (take w (fileobj r))
  /\ objects r' = objects r /\ store r' = store r.
Proof.
  unfold read_long. intros E.
  assert (exists c, calcsize h c =
                      (if force_8bytes_long o then 8%nat
                       else long_bytes (sizeof_long h))
                    /\ unpacked c = le_signed
                    /\ _read h c r = Ok (v, r')) as (c & Hc & Hu & E').
  { destruct (force_8bytes_long o); [by exists Fmt_q | by exists Fmt_l]. }
  simpl. rewrite <- Hc.
  apply _read_ok in E' as (H & L & ->).
  pose proof (reads_drop _ _ _ H) as D. rewrite L in D.
  pose proof (reads_length _ _ _ H) as Hl. rewrite L in Hl.
  destruct H as (_ & O & S). rewrite Hu. repeat split; auto. lia.
Qed.

(** C4, as the code has it. A fixed-width read through [_read] that finds
    fewer bytes than its format needs raises [struct.error]; the payload
    read of [read_string] has no such check: when fewer bytes remain than
    the length prefix announces, it decodes the bytes that are left and
    returns that shorter string. *)
Theorem truncated_reads c r r0 size r1 :
  (length (fileobj r) < calcsize h c)%nat ->
  read_int h r0 = Ok (size, r1) ->
  Z.of_nat (length (fileobj r1)) < size ->
  _read h c r = Raise StructError
  /\ read_string h r0 =
     match utf8_decode (fileobj r1) with
     | Some s => Ok (s, mkT7Reader [] (objects r1) (store r1))
     | None => Raise UnicodeDecodeError
     end.
Proof.
  intros Hs E Hl. split; [by apply _read_short|].
  unfold read_string. rewrite (bind_ok _ _ _ _ _ E).
  assert (f_read size r1 =
          Ok (fileobj r1, mkT7Reader [] (objects r1) (store r1))) as Ef.
  { unfold f_read.
    destruct (Z.ltb_spec size (-1)); [lia|].
    destruct (Z.eqb_spec size (-1)); [lia|].
    rewrite take_ge, drop_ge by lia. done. }
  rewrite (bind_ok _ _ _ _ _ Ef).
  by destruct (utf8_decode (fileobj r1)).
Qed.

End Claims.

Section ClassClaims.

Context (h : host) (o : options).

(** C7. A class instance whose class name is not in [torch_readers]: with
    [force_deserialize_classes] set (the default, lenient mode) the reader
    reads one nested value and returns a new [TorchObject] that holds the
    class name and that value, registered under the index; with the flag
    unset (strict mode) the same input raises
    [T7ReaderException('unsupported torch class: ...')] and no value is
    returned. *)
Theorem read_obj_unregistered_class fuel r r1 index r2 version className r3 :
  read_int h r = Ok (TYPE_TORCH, r1) ->
  read_int h r1 = Ok (index, r2) ->
  objects r !! index = None ->
  read_class_name h r2 = Ok ((version, className), r3) ->
  torch_readers className = None ->
  (force_deserialize_classes o = true ->
   forall x r4,
     read_obj h o fuel r3 = Ok (x, r4) ->
     read_obj h o (S fuel) r =
     Ok (VRef (length (store r4)),
         mkT7Reader (fileobj r4)
                    (<[index := VRef (length (store r4))]> (objects r4))
                    (store r4 ++ [OTorchObject className x])))
  /\ (force_deserialize_classes o = false ->
      read_obj h o (S fuel) r =
      Raise (T7ReaderException (UnsupportedTorchClass className))).
Proof.
  intros E1 E2 Hn Ec Hr.
  destruct (read_int_same h _ _ _ E1) as (_ & _ & O1 & _).
  destruct (read_int_same h _ _ _ E2) as (_ & _ & O2 & _).
  assert (objects r2 !! index = None) as Hn2 by congruence.
  rewrite read_obj_S.
  rewrite (read_obj_body_new h o _ _ _ _ _ _ E1 eq_refl E2 Hn2).
  change (is_function_type TYPE_TORCH) with false.
  change (TYPE_TORCH =? TYPE_TORCH) with true. cbv iota.
  unfold read_torch. rewrite (bind_ok _ _ _ _ _ Ec). cbv iota. rewrite Hr.
  split.
  - intros -> x r4 Ex. simpl negb. cbv iota.
    unfold bind at 1. unfold bind at 1. rewrite Ex. reflexivity.
  - intros ->. reflexivity.
Qed.

(** C6, as the code has it. A tensor payload is read as [ndim], the sizes,
    the strides, the 1-based storage offset and then the storage object.
    When the storage is [None], [ndim] is 0 or an array is empty, the
    result is a new empty array of the tensor's element type. Otherwise,
    for a storage of [n] elements at address [a], the strides are the
    encoded strides times the storage's item size, and the start is the
    offset less one, clipped as the start of a Python slice is: it is the
    offset less one when that lies within the storage, counts from the end
    when it is negative, and is the end when it lies beyond. When numpy
    accepts the sizes and these strides, the result is a new view of the
    storage's buffer with the sizes as its shape, these strides and that
    start; when it does not (a negative size, a size or stride out of
    range), the read raises. *)
Theorem read_tensor_generic_spec dt rec version r ndim r1 size r2 stride r3
        l r4 storage r5 :
  read_int h r = Ok (ndim, r1) ->
  read_long_array h o ndim r1 = Ok (size, r2) ->
  read_long_array h o ndim r2 = Ok (stride, r3) ->
  read_long h o r3 = Ok (l, r4) ->
  rec r4 = Ok (storage, r5) ->
  (storage = VNone \/ ndim = 0 \/ size = [] \/ stride = [] ->
   read_tensor_generic h o dt rec version r =
   Ok (VRef (length (store r5)),
       mkT7Reader (fileobj r5) (objects r5)
                  (store r5 ++ [ONdarray (empty_array dt)])))
  /\ (forall a x n,
        storage = VRef a ->
        store r5 !! a = Some (ONdarray x) ->
        is_storage x n ->
        ndim <> 0 -> size <> [] -> stride <> [] ->
        let isz := itemsize (nd_dtype x) in
        let start :=
          if l - 1 <? 0 then Z.max (n + (l - 1)) 0 else Z.min (l - 1) n in
        let strides := map (fun s => isz * s) stride in
        (1 <= l <= n + 1 -> start = l - 1)
        /\ read_tensor_generic h o dt rec version r =
           if np_accepts h isz size strides then
             Ok (VRef (length (store r5)),
                 mkT7Reader (fileobj r5) (objects r5)
                   (store r5 ++
                    [ONdarray (NdArray (nd_dtype x) (Some a) [] (start * isz)
                                       size strides)]))
           else Raise ValueError).
Proof.
  intros E1 E2 E3 E4 E5. unfold read_tensor_generic.
  rewrite (bind_ok _ _ _ _ _ E1), (bind_ok _ _ _ _ _ E2),
    (bind_ok _ _ _ _ _ E3), (bind_ok _ _ _ _ _ E4), (bind_ok _ _ _ _ _ E5).
  split.
  - intros Hd.
    assert (is_none storage || (ndim =? 0) || (length size =? 0)%nat
            || (length stride =? 0)%nat = true) as ->; [|done].
    destruct Hd as [-> | [-> | [-> | ->]]]; simpl;
      rewrite ?orb_true_r; done.
  - intros a x n -> Hx (Ho & Hoff & Hsh & Hst) Hn Hs Ht.
    split.
    { intros Hl. destruct (Z.ltb_spec (l - 1) 0); lia. }
    assert (is_none (VRef a) || (ndim =? 0) || (length size =? 0)%nat
            || (length stride =? 0)%nat = false) as ->.
    { simpl. apply Z.eqb_neq in Hn. rewrite Hn.
      destruct size; [done|]. destruct stride; done. }
    assert (get_ndarray (VRef a) r5 = Ok ((a, x), r5)) as Eg.
    { unfold get_ndarray. by rewrite Hx. }
    rewrite (bind_ok _ _ _ _ _ Eg). cbv iota.
    unfold slice_from. rewrite Hsh, Hst, Ho, Hoff.
    unfold bind at 1, lift. unfold as_strided.
    cbn [nd_dtype nd_owner nd_offset default]. rewrite Z.add_0_l.
    by destruct (np_accepts _ _ _ _).
Qed.

End ClassClaims.

(** ** The arithmetic of the list heuristic *)

Lemma sumZ_app xs ys : sumZ (xs ++ ys) = sumZ xs + sumZ ys.
Proof. induction xs as [|x xs IH]; simpl; lia. Qed.

Lemma sumZ_Permutation xs ys : xs ≡ₚ ys -> sumZ xs = sumZ ys.
Proof. induction 1; simpl; lia. Qed.

Lemma sumZ_seqZ (n : nat) :
  2 * sumZ (seqZ 1 (Z.of_nat n)) = Z.of_nat n * (Z.of_nat n + 1).
Proof.
  induction n as [|n IH]; [done|].
  rewrite seqZ_S, sumZ_app. simpl. lia.
Qed.

Lemma sumZ_nonneg (D : list Z) :
  (forall y, y ∈ D -> 0 < y) -> 0 <= sumZ D.
Proof.
  induction D as [|w D IH]; intros Hpos; simpl; [lia|].
  assert (0 < w) by (apply Hpos; left).
  assert (0 <= sumZ D); [|lia].
  apply IH. intros y Hy. apply Hpos. by right.
Qed.

Lemma elem_le_sumZ (D : list Z) z :
  (forall y, y ∈ D -> 0 < y) -> z ∈ D -> z <= sumZ D.
Proof.
  induction D as [|w D IH]; intros Hpos Hz; [by apply elem_of_nil in Hz|].
  simpl.
  assert (0 < w) by (apply Hpos; left).
  assert (forall y, y ∈ D -> 0 < y) as Hpos' by (intros; apply Hpos; by right).
  pose proof (sumZ_nonneg D Hpos').
  apply elem_of_cons in Hz as [->|Hz]; [lia|].
  specialize (IH Hpos' Hz). lia.
Qed.

(** Distinct integers of [1..b]: there are at most [b] of them, their sum
    is at least [1 + ... + n] for [n] of them, and it is that small only
    when none exceeds [n]. *)
Lemma distinct_sum_bound (b : nat) (D : list Z) :
  NoDup D -> (forall z, z ∈ D -> 1 <= z <= Z.of_nat b) ->
  let n := Z.of_nat (length D) in
  n <= Z.of_nat b
  /\ n * (n + 1) <= 2 * sumZ D
  /\ (2 * sumZ D = n * (n + 1) -> forall z, z ∈ D -> z <= n).
Proof.
  revert D. induction b as [|b IH]; intros D HD Hr.
  - destruct D as [|z D]; [simpl; repeat split; try lia; by intros _ z ?%elem_of_nil|].
    specialize (Hr z (list_elem_of_here _ _)). lia.
  - destruct (decide (Z.of_nat (S b) ∈ D)) as [Hin|Hout].
    + apply elem_of_Permutation in Hin as [D' HP].
      assert (NoDup (Z.of_nat (S b) :: D')) as HD' by by rewrite <- HP.
      apply NoDup_cons in HD' as [Hnotin HD'].
      destruct (IH D' HD') as (Hle & Hsum & Heq).
      { intros z Hz.
        assert (z ∈ D) as HzD by (rewrite HP; by right).
        specialize (Hr z HzD).
        assert (z <> Z.of_nat (S b)) by (intros ->; done). lia. }
      rewrite (sumZ_Permutation _ _ HP), (Permutation_length HP).
      simpl sumZ. simpl length. simpl in Hle, Hsum, Heq. cbv zeta.
      repeat split; try lia. intros E z Hz.
      rewrite HP in Hz. specialize (Hr z).
      rewrite HP in Hr. specialize (Hr Hz). nia.
    + destruct (IH D HD) as (Hle & Hsum & Heq).
      { intros z Hz. specialize (Hr z Hz).
        assert (z <> Z.of_nat (S b)) by (intros ->; done). lia. }
      simpl in *. repeat split; auto. lia.
Qed.

(** The keys a dict holds after the integers [zs] were inserted: [D] has
    each of them once. The test of the heuristic, [n * (n + 1) = 2 * sum]
    for the [n] keys of the dict and the sum of all the keys read, holds
    exactly when [zs] has no repetition and is a listing of [1..n]. *)
Lemma heuristic_arith (zs D : list Z) :
  (forall z, z ∈ zs -> 0 < z) ->
  NoDup D -> (forall z, z ∈ D <-> z ∈ zs) ->
  sumZ D <= sumZ zs -> (sumZ D = sumZ zs -> NoDup zs) ->
  let n := Z.of_nat (length D) in
  n * (n + 1) = 2 * sumZ zs <->
  NoDup zs /\ (forall z, z ∈ zs <-> 1 <= z <= Z.of_nat (length zs)).
Proof.
  intros Hpos HD Hel Hle Hnd n. split.
  - intros E.
    assert (exists b : nat, forall z, z ∈ D -> 1 <= z <= Z.of_nat b) as [b Hb].
    { exists (Z.to_nat (sumZ zs + 1)). intros z Hz.
      assert (0 < z) by (apply Hpos, Hel, Hz).
      assert (z <= sumZ D); [|lia].
      apply elem_le_sumZ; [|done]. intros y Hy. by apply Hpos, Hel. }
    destruct (distinct_sum_bound b D HD Hb) as (_ & Hsum & Heq).
    fold n in Hsum, Heq.
    assert (sumZ D = sumZ zs) as Es by lia.
    specialize (Hnd Es).
    assert (D ≡ₚ zs) as HP by by apply NoDup_Permutation.
    assert (length zs = length D) as HL by by rewrite HP.
    split; [done|]. rewrite HL. fold n.
    assert (D ≡ₚ seqZ 1 n) as HP'.
    { apply submseteq_length_Permutation.
      - apply NoDup_submseteq; [done|]. intros z Hz.
        apply elem_of_seqZ. specialize (Heq ltac:(lia) z Hz).
        specialize (Hb z Hz). lia.
      - rewrite length_seqZ. unfold n. lia. }
    intros z. rewrite <- Hel, HP', elem_of_seqZ. lia.
  - intros [Hnd' Hset].
    assert (D ≡ₚ zs) as HP by by apply NoDup_Permutation.
    assert (zs ≡ₚ seqZ 1 (Z.of_nat (length zs))) as HP'.
    { apply NoDup_Permutation; [done | apply NoDup_seqZ|].
      intros z. rewrite Hset, elem_of_seqZ. lia. }
    unfold n. rewrite (Permutation_length HP).
    rewrite (sumZ_Permutation _ _ HP'). by rewrite sumZ_seqZ.
Qed.

(** ** Dicts whose keys are integers *)

Lemma key_eqb_vint fuel s z w : key_eqb fuel s (VInt z) (VInt w) = (z =? w).
Proof. by destruct fuel. Qed.

Lemma hashable_vint fuel s z : hashable fuel s (VInt z) = true.
Proof. by destruct fuel. Qed.

Lemma dict_set_vint fuel s d k v :
  vint_keys d -> is_vint k ->
  dict_set (key_eqb fuel s) d k v = dict_set vint_eqb d k v.
Proof.
  intros Hd [z ->]. induction Hd as [|[k' v'] d [w Hw] _ IH]; [done|].
  simpl in *. subst k'. rewrite key_eqb_vint. simpl. by rewrite IH.
Qed.

Lemma dict_get_vint fuel s d k :
  vint_keys d -> is_vint k ->
  dict_get (key_eqb fuel s) d k = dict_get vint_eqb d k.
Proof.
  intros Hd [z ->]. induction Hd as [|[k' v'] d [w Hw] _ IH]; [done|].
  simpl in *. subst k'. rewrite key_eqb_vint. simpl. by rewrite IH.
Qed.

Lemma dict_set_present d z v :
  vint_keys d -> z ∈ keysZ d ->
  keysZ (dict_set vint_eqb d (VInt z) v) = keysZ d
  /\ vint_keys (dict_set vint_eqb d (VInt z) v).
Proof.
  intros Hd. induction Hd as [|[k' v'] d [w Hw] Hd IH]; intros Hin.
  - by apply elem_of_nil in Hin.
  - simpl in *. subst k'. simpl in *.
    destruct (Z.eqb_spec w z) as [->|Hne].
    + split; [done|]. constructor; [by exists z | done].
    + apply elem_of_cons in Hin as [->|Hin]; [done|].
      destruct (IH Hin) as [IH1 IH2]. simpl. split; [by rewrite IH1|].
      constructor; [by exists w | done].
Qed.

Lemma dict_set_absent d z v :
  vint_keys d -> z ∉ keysZ d ->
  dict_set vint_eqb d (VInt z) v = d ++ [(VInt z, v)].
Proof.
  intros Hd. induction Hd as [|[k' v'] d [w Hw] Hd IH]; intros Hout; [done|].
  simpl in *. subst k'. simpl in *.
  apply not_elem_of_cons in Hout as [Hne Hout].
  destruct (Z.eqb_spec w z) as [->|_]; [done|]. by rewrite IH.
Qed.

Lemma keysZ_app d d' : keysZ (d ++ d') = keysZ d ++ keysZ d'.
Proof. apply map_app. Qed.

Lemma vint_keys_app d d' : vint_keys d -> vint_keys d' -> vint_keys (d ++ d').
Proof. apply Forall_app_2. Qed.

(** What the dict holds after integer keys were stored: each key once;
    the sum of its keys is at most the sum of the keys stored, and is that
    sum only when no key was stored twice, in which case the dict is the
    pairs themselves. *)
Lemma int_dict_spec kvs d0 :
  vint_keys kvs -> (forall z, z ∈ keysZ kvs -> 0 < z) ->
  vint_keys d0 -> NoDup (keysZ d0) ->
  let d := int_dict kvs d0 in
  vint_keys d /\ NoDup (keysZ d)
  /\ (forall z, z ∈ keysZ d <-> z ∈ keysZ d0 \/ z ∈ keysZ kvs)
  /\ sumZ (keysZ d) <= sumZ (keysZ d0) + sumZ (keysZ kvs)
  /\ (sumZ (keysZ d) = sumZ (keysZ d0) + sumZ (keysZ kvs) ->
      NoDup (keysZ d0 ++ keysZ kvs) /\ d = d0 ++ kvs).
Proof.
  intros Hk. revert d0.
  induction Hk as [|[k v] kvs [z Hz] Hk IH]; intros d0 Hpos Hd0 Hnd.
  - simpl. refine (conj Hd0 (conj Hnd (conj _ (conj _ _)))).
    + intros w. rewrite elem_of_nil. tauto.
    + lia.
    + intros _. by rewrite !app_nil_r.
  - simpl in Hz. subst k. cbv zeta.
    change (int_dict ((VInt z, v) :: kvs) d0)
      with (int_dict kvs (dict_set vint_eqb d0 (VInt z) v)).
    change (keysZ ((VInt z, v) :: kvs)) with (z :: keysZ kvs).
    change (sumZ (z :: keysZ kvs)) with (z + sumZ (keysZ kvs)).
    assert (0 < z) as Hz by (apply Hpos; simpl; left).
    assert (forall w, w ∈ keysZ kvs -> 0 < w) as Hpos'
        by (intros w Hw; apply Hpos; simpl; by right).
    destruct (decide (z ∈ keysZ d0)) as [Hin|Hout].
    + destruct (dict_set_present d0 z v Hd0 Hin) as [Ek Hv].
      destruct (IH (dict_set vint_eqb d0 (VInt z) v) Hpos' Hv) as
          (H1 & H2 & H3 & H4 & H5); [by rewrite Ek|].
      cbv zeta in H1, H2, H3, H4, H5. rewrite Ek in H3, H4, H5.
      refine (conj H1 (conj H2 (conj _ (conj _ _)))).
      * intros w. rewrite H3, elem_of_cons. split; [tauto|].
        intros [?|[->|?]]; tauto.
      * lia.
      * intros E. lia.
    + rewrite (dict_set_absent d0 z v Hd0 Hout).
      assert (vint_keys (d0 ++ [(VInt z, v)])) as Hv.
      { apply vint_keys_app; [done|]. constructor; [by exists z | constructor]. }
      assert (NoDup (keysZ (d0 ++ [(VInt z, v)]))) as Hnd'.
      { rewrite keysZ_app. apply NoDup_app. split; [done|]. split.
        - intros w Hw [->|[]%elem_of_nil]%elem_of_cons. done.
        - apply NoDup_singleton. }
      destruct (IH (d0 ++ [(VInt z, v)]) Hpos' Hv Hnd') as
          (H1 & H2 & H3 & H4 & H5).
      cbv zeta in H1, H2, H3, H4, H5.
      rewrite keysZ_app, sumZ_app in H4, H5. rewrite keysZ_app in H3.
      change (keysZ [(VInt z, v)]) with [z] in H3, H4, H5.
      change (sumZ [z]) with (z + 0) in H4, H5.
      rewrite <- !app_assoc in H5. simpl app in H5.
      refine (conj H1 (conj H2 (conj _ (conj _ _)))).
      * intros w. rewrite H3, elem_of_app, list_elem_of_singleton, elem_of_cons.
        tauto.
      * lia.
      * intros E. apply H5. lia.
Qed.

(** ** The run of the table loop *)

Lemma alloc_ok ob r :
  alloc ob r =
  Ok (VRef (length (store r)),
      mkT7Reader (fileobj r) (objects r) (store r ++ [ob])).
Proof. reflexivity. Qed.

Lemma dict_setitem_ok a k v r r' :
  dict_setitem (VRef a) k v r = Ok (tt, r') ->
  exists d,
    store r !! a = Some (ODict d)
    /\ r' = mkT7Reader (fileobj r) (objects r)
              (<[a := ODict (dict_set (key_eqb (length (store r)) (store r))
                                      d k v)]> (store r)).
Proof.
  unfold dict_setitem. destruct (store r !! a) as [[d| | | |]|]; try done.
  destruct (hashable _ _ k); [|done]. intros [= <-]. eauto.
Qed.

Lemma dict_items_ok a d r :
  store r !! a = Some (ODict d) -> dict_items (VRef a) r = Ok (d, r).
Proof. unfold dict_items. by intros ->. Qed.

Lemma vint_keys_fst kvs : vint_keys kvs -> kvs.*1 = VInt <$> keysZ kvs.
Proof.
  induction 1 as [|[k v] kvs [z Hz] _ IH]; [done|].
  simpl in Hz. subst k. unfold keysZ. rewrite map_cons, !fmap_cons.
  simpl. f_equal. exact IH.
Qed.

#[global] Instance VInt_inj : Inj (=) (=) VInt.
Proof. by intros z w [= ->]. Qed.

Lemma dict_get_present d z :
  vint_keys d -> z ∈ keysZ d -> is_Some (dict_get vint_eqb d (VInt z)).
Proof.
  induction 1 as [|[k v] d [w Hw] _ IH]; intros Hin.
  - by apply elem_of_nil in Hin.
  - simpl in *. subst k. simpl in *.
    destruct (Z.eqb_spec w z); [by eexists|].
    apply elem_of_cons in Hin as [->|Hin]; [done | by apply IH].
Qed.

Lemma dict_get_member d z v :
  vint_keys d -> NoDup (keysZ d) -> (VInt z, v) ∈ d ->
  dict_get vint_eqb d (VInt z) = Some v.
Proof.
  induction 1 as [|[k v'] d [w Hw] Hd IH]; intros Hnd Hin.
  - by apply elem_of_nil in Hin.
  - simpl in *. subst k. simpl in *.
    apply NoDup_cons in Hnd as [Hnotin Hnd].
    apply elem_of_cons in Hin as [[= <- <-]|Hin]; [by rewrite Z.eqb_refl|].
    destruct (Z.eqb_spec w z) as [->|_]; [|by apply IH].
    exfalso. apply Hnotin.
    apply (list_elem_of_fmap_2 (fun kv => key_Z kv.1)) in Hin. exact Hin.
Qed.

Section TableLoop.

Context (h : host) (o : options).

Lemma heuristic_fold (kvs : list (value * value)) s b :
  use_list_heuristic o = true ->
  fold_left (fun acc kv => heuristic_step o (fst kv) acc) kvs (s, b) =
  (s + sumZ (map (fun kv => natural_value (fst kv)) kvs),
   b && forallb (fun kv => natural_key (fst kv)) kvs).
Proof.
  intros Hu. revert s b. induction kvs as [|[k v] kvs IH]; intros s b; simpl.
  - by rewrite Z.add_0_r, andb_true_r.
  - unfold natural_value at 1, natural_key at 1. rewrite Hu.
    destruct (isinstance_int k) as [z|]; [destruct (z <=? 0)|];
      rewrite IH; simpl; f_equal; try lia;
      rewrite ?andb_false_r; try done.
Qed.

Lemma for_in_table_run rec obj r kvs r' :
  table_run rec obj r kvs r' ->
  forall (l : list Z) acc,
    length l = length kvs ->
    for_in l
      (fun _ acc =>
         let* k := rec in
         let* v := rec in
         let* _ := dict_setitem obj k v in
         ret (heuristic_step o k acc))
      acc r
    = Ok (fold_left (fun acc kv => heuristic_step o (fst kv) acc) kvs acc, r').
Proof.
  induction 1 as [r|r k r1 v r2 r3 kvs r' Ek Ev Es _ IH]; intros l acc Hl.
  - destruct l; [done | discriminate].
  - destruct l as [|i l]; [discriminate|]. simpl.
    unfold bind at 1. rewrite (bind_ok _ _ _ _ _ Ek).
    rewrite (bind_ok _ _ _ _ _ Ev), (bind_ok _ _ _ _ _ Es).
    unfold ret at 1. apply IH. by injection Hl.
Qed.

(** The dict under construction is a dict at the end of the loop. *)
Lemma table_run_dict rec a r kvs r' :
  table_run rec (VRef a) r kvs r' ->
  (exists d, store r !! a = Some (ODict d)) ->
  exists d, store r' !! a = Some (ODict d).
Proof.
  induction 1 as [r|r k r1 v r2 r3 kvs r' Ek Ev Es _ IH]; [done|].
  intros _. apply IH.
  apply dict_setitem_ok in Es as (d & Hd & ->). simpl.
  eexists. apply list_lookup_insert_eq. by eapply lookup_lt_Some.
Qed.

(** When all the keys are integers, the dict at the end of the loop holds
    the pairs, a later value replacing an earlier one of the same key. *)
Lemma table_run_int_dict fuel a r kvs r' :
  table_run (read_obj h o fuel) (VRef a) r kvs r' ->
  vint_keys kvs ->
  forall d0, vint_keys d0 -> store r !! a = Some (ODict d0) ->
  store r' !! a = Some (ODict (int_dict kvs d0)).
Proof.
  induction 1 as [r|r k r1 v r2 r3 kvs r' Ek Ev Es _ IH];
    intros Hk d0 Hd0 Ha; [done|].
  apply Forall_cons in Hk as [Hkey Hk]. simpl in Hkey.
  apply read_obj_advanced in Ek as [_ P1].
  apply read_obj_advanced in Ev as [_ P2].
  assert (store r2 !! a = Some (ODict d0)) as Ha2.
  { eapply prefix_lookup_Some; [|exact P2].
    eapply prefix_lookup_Some; [exact Ha | exact P1]. }
  apply dict_setitem_ok in Es as (d & Hd & ->).
  rewrite Ha2 in Hd. injection Hd as <-.
  apply (IH Hk (dict_set vint_eqb d0 k v)).
  - destruct Hkey as [z ->].
    destruct (decide (z ∈ keysZ d0)).
    + by apply dict_set_present.
    + rewrite dict_set_absent by done. apply vint_keys_app; [done|].
      constructor; [by exists z | constructor].
  - simpl. rewrite dict_set_vint by done.
    apply list_lookup_insert_eq. by eapply lookup_lt_Some.
Qed.

(** The loop that builds the list from the dict at [a]. *)
Lemma materialize a d r (l : list Z) acc :
  store r !! a = Some (ODict d) -> vint_keys d ->
  (forall i, i ∈ l -> is_Some (dict_get vint_eqb d (VInt (i + 1)))) ->
  for_in l
    (fun i lst =>
       let* x := dict_getitem (VRef a) (VInt (i + 1)) in
       ret (lst ++ [x]))
    acc r
  = Ok (acc ++ map (fun i => default VNone (dict_get vint_eqb d (VInt (i + 1)))) l,
        r).
Proof.
  intros Ha Hd. revert acc. induction l as [|i l IH]; intros acc Hl; simpl.
  - by rewrite app_nil_r.
  - destruct (Hl i) as [x Hx]; [left|].
    assert (dict_getitem (VRef a) (VInt (i + 1)) r = Ok (x, r)) as Eg.
    { unfold dict_getitem. rewrite (bind_ok _ _ _ _ _ (dict_items_ok _ _ _ Ha)).
      unfold bind, get_store. rewrite hashable_vint.
      rewrite dict_get_vint by (done || by eexists). by rewrite Hx. }
    unfold bind at 1. rewrite (bind_ok _ _ _ _ _ Eg). unfold ret at 1.
    rewrite IH by (intros j Hj; apply Hl; by right).
    rewrite Hx. simpl. by rewrite <- app_assoc.
Qed.

End TableLoop.

Lemma natural_keys_vint (kvs : list (value * value)) :
  (forall b, VBool b ∉ kvs.*1) ->
  forallb (fun kv => natural_key (fst kv)) kvs = true ->
  vint_keys kvs /\ (forall z, z ∈ keysZ kvs -> 0 < z)
  /\ map (fun kv => natural_value (fst kv)) kvs = keysZ kvs.
Proof.
  induction kvs as [|[k v] kvs IH]; intros Hnb Hall.
  - repeat split; [constructor | by intros z ?%elem_of_nil].
  - simpl in Hall. apply andb_true_iff in Hall as [Hk Hall].
    destruct IH as (IH1 & IH2 & IH3); [|done|].
    { intros b Hb. apply (Hnb b). rewrite fmap_cons. by right. }
    assert (exists z, k = VInt z /\ 0 < z) as (z & -> & Hz).
    { unfold natural_key in Hk. destruct k; simpl in Hk; try done.
      - exists z. split; [done|]. destruct (Z.leb_spec z 0); [done | lia].
      - exfalso. apply (Hnb b). rewrite fmap_cons. left. }
    split; [|split].
    + constructor; [by exists z | done].
    + intros w [->|Hw]%elem_of_cons; [done | by apply IH2].
    + simpl. rewrite IH3. unfold natural_value. simpl.
      destruct (Z.leb_spec z 0); [lia | done].
Qed.

Lemma list_like_forallb (kvs : list (value * value)) :
  (forall k, k ∈ kvs.*1 -> exists z, k = VInt z /\ 0 < z) ->
  forallb (fun kv => natural_key (fst kv)) kvs = true.
Proof.
  induction kvs as [|[k v] kvs IH]; intros Hk; [done|].
  simpl. rewrite IH.
  - destruct (Hk k) as (z & -> & Hz); [rewrite fmap_cons; left|].
    unfold natural_key. simpl. destruct (Z.leb_spec z 0); [lia | done].
  - intros k' Hk'. apply Hk. rewrite fmap_cons. by right.
Qed.

Section ListHeuristic.

Context (h : host) (o : options).

(** The table branch, from the pairs its loop read: without a boolean
    among the keys, the result is a list exactly when the keys are the
    integers [1..n], each read once; the list then holds at position [i]
    the value read with key [i + 1]. Otherwise the result is the dict the
    pairs were stored into. *)
Lemma read_table_spec fuel index r size r1 kvs r2 :
  use_list_heuristic o = true ->
  read_int h r = Ok (size, r1) ->
  table_run (read_obj h o fuel) (VRef (length (store r1)))
            (mkT7Reader (fileobj r1) (objects r1) (store r1 ++ [ODict []]))
            kvs r2 ->
  length kvs = Z.to_nat size ->
  (forall b, VBool b ∉ kvs.*1) ->
  (list_like kvs.*1
   /\ exists l,
       read_table h o index (read_obj h o fuel) r =
       Ok (VRef (length (store r2)),
           mkT7Reader (fileobj r2)
                      (<[index := VRef (length (store r2))]> (objects r2))
                      (store r2 ++ [OList l]))
       /\ length l = length kvs
       /\ forall (i : nat) v, (VInt (Z.of_nat i + 1), v) ∈ kvs -> l !! i = Some v)
  \/ (~ list_like kvs.*1
      /\ read_table h o index (read_obj h o fuel) r =
         Ok (VRef (length (store r1)),
             mkT7Reader (fileobj r2)
                        (<[index := VRef (length (store r1))]> (objects r2))
                        (store r2))
      /\ exists d, store r2 !! length (store r1) = Some (ODict d)).
Proof.
  intros Hu Es Hrun Hlen Hnb.
  remember (length (store r1)) as a eqn:Ea.
  assert (length (range size) = length kvs) as Hrange
      by (unfold range; by rewrite length_seqZ).
  pose proof (for_in_table_run o _ _ _ _ _ Hrun (range size) (0, true) Hrange)
    as Hloop.
  rewrite (heuristic_fold o kvs 0 true Hu) in Hloop. simpl andb in Hloop.
  destruct (table_run_dict _ _ _ _ _ Hrun) as [d Hd].
  { exists []. simpl. by apply list_lookup_middle. }
  unfold read_table.
  rewrite (bind_ok _ _ _ _ _ Es), (bind_ok _ _ _ _ _ (alloc_ok _ r1)).
  rewrite <- Ea. rewrite (bind_ok _ _ _ _ _ Hloop). cbv iota. rewrite Hu.
  destruct (forallb (fun kv => natural_key (fst kv)) kvs) eqn:Hnat.
  - destruct (natural_keys_vint kvs Hnb Hnat) as (Hv & Hpos & Emap).
    rewrite Emap.
    assert (store r2 !! a = Some (ODict (int_dict kvs []))) as Hd'.
    { eapply table_run_int_dict; [exact Hrun | done | constructor|].
      simpl. by apply list_lookup_middle. }
    assert (Some (ODict d) = Some (ODict (int_dict kvs []))) as [= ->]
        by (etrans; [symmetry; exact Hd | exact Hd']).
    clear Hd.
    destruct (int_dict_spec kvs [] Hv Hpos (Forall_nil_2 _) (NoDup_nil_2))
      as (H1 & H2 & H3 & H4 & H5).
    cbv zeta in H1, H2, H3, H4, H5.
    change (keysZ []) with (@nil Z) in H3, H4, H5.
    change (sumZ []) with 0 in H4, H5.
    rewrite Z.add_0_l in H4, H5. rewrite !app_nil_l in H5.
    assert (forall z, z ∈ keysZ (int_dict kvs []) <-> z ∈ keysZ kvs) as H3'.
    { intros z. rewrite H3, elem_of_nil. tauto. }
    pose proof (heuristic_arith (keysZ kvs) (keysZ (int_dict kvs []))
                  Hpos H2 H3' H4 (fun E => proj1 (H5 E))) as Harith.
    cbv zeta in Harith. unfold keysZ at 1 2 in Harith.
    rewrite length_map in Harith.
    rewrite (vint_keys_fst kvs Hv).
    assert (list_like (VInt <$> keysZ kvs) <->
            NoDup (keysZ kvs)
            /\ (forall z, z ∈ keysZ kvs <-> 1 <= z <= Z.of_nat (length (keysZ kvs))))
      as Hlike.
    { unfold list_like. rewrite length_fmap, NoDup_fmap by apply _. split.
      - intros (_ & Hn & Hs). split; [done|]. intros z.
        by rewrite <- Hs, list_elem_of_fmap_inj by apply _.
      - intros (Hn & Hs). split; [|split; [done|]].
        + intros k (z & -> & Hz)%list_elem_of_fmap. eauto.
        + intros z. by rewrite list_elem_of_fmap_inj by apply _. }
    destruct (Z.eqb_spec (Z.of_nat (length (int_dict kvs [])) *
                          (Z.of_nat (length (int_dict kvs [])) + 1))
                         (2 * (0 + sumZ (keysZ kvs)))) as [E|NE].
    + left. assert (E' := E). rewrite Z.add_0_l in E'.
      apply Harith in E' as HL. split; [by apply Hlike|].
      destruct HL as [Hnd Hset].
      assert (int_dict kvs [] = kvs) as Edict.
      { apply H5. apply sumZ_Permutation. by apply NoDup_Permutation. }
      rewrite Edict in Hd', E.
      assert (forall i, i ∈ range (Z.of_nat (length kvs)) ->
                        is_Some (dict_get vint_eqb kvs (VInt (i + 1)))) as Hget.
      { intros i Hi. apply dict_get_present; [done|]. apply Hset.
        unfold range in Hi. apply elem_of_seqZ in Hi.
        unfold keysZ. rewrite length_map. lia. }
      eexists. split; [|split].
      * unfold bind at 1.
        rewrite (bind_ok _ _ _ _ _ (dict_items_ok _ _ _ Hd')).
        apply Z.eqb_eq in E. rewrite E. change (true && true) with true.
        cbv iota.
        rewrite (bind_ok _ _ _ _ _ (materialize a kvs r2 _ [] Hd' Hv Hget)).
        reflexivity.
      * rewrite app_nil_l, length_map. unfold range.
        rewrite length_seqZ. lia.
      * intros i v Hin.
        assert (Z.of_nat i + 1 ∈ keysZ kvs) as Hk.
        { apply (list_elem_of_fmap_2 (fun kv => key_Z kv.1)) in Hin. exact Hin. }
        apply Hset in Hk. unfold keysZ in Hk. rewrite length_map in Hk.
        rewrite app_nil_l. unfold range.
        change (map ?f ?l) with (f <$> l).
        rewrite list_lookup_fmap, lookup_seqZ_lt by lia. simpl.
        rewrite Z.add_0_l. by rewrite (dict_get_member kvs _ v Hv Hnd Hin).
    + right. split; [|split].
      * intros HL%Hlike. apply NE. rewrite Z.add_0_l. by apply Harith.
      * unfold bind at 1.
        rewrite (bind_ok _ _ _ _ _ (dict_items_ok _ _ _ Hd')).
        apply Z.eqb_neq in NE. rewrite NE. reflexivity.
      * eauto.
  - right. split; [|split].
    + intros (Hk & _). by rewrite (list_like_forallb kvs Hk) in Hnat.
    + unfold bind at 1.
      rewrite (bind_ok _ _ _ _ _ (dict_items_ok _ _ _ Hd)). reflexivity.
    + eauto.
Qed.

End ListHeuristic.

Section TableClaims.

Context (h : host) (o : options).

Lemma read_obj_table_new fuel r0 ra index r :
  read_int h r0 = Ok (TYPE_TABLE, ra) ->
  read_int h ra = Ok (index, r) ->
  objects r0 !! index = None ->
  read_obj h o (S fuel) r0 = read_table h o index (read_obj h o fuel) r.
Proof.
  intros E0 E1 Hn.
  destruct (read_int_same h _ _ _ E0) as (_ & _ & O0 & _).
  destruct (read_int_same h _ _ _ E1) as (_ & _ & O1 & _).
  assert (objects r !! index = None) as Hn' by congruence.
  rewrite read_obj_S.
  by rewrite (read_obj_body_new h o _ _ _ _ _ _ E0 eq_refl E1 Hn').
Qed.

(** C3, as the code has it. A table read with the list heuristic on, none
    of whose keys is a boolean, becomes a list exactly when every key is a
    positive integer, no key was read twice, and the keys are [1..n] for
    the [n] pairs read; the list holds at position [i] the value read with
    key [i + 1]. In every other case the result is the dict the pairs were
    stored into. In particular an empty table becomes the empty list and a
    table with a gap in its keys stays a dict. *)
Theorem read_obj_table_list_heuristic fuel r0 ra index r size r1 kvs r2 :
  use_list_heuristic o = true ->
  read_int h r0 = Ok (TYPE_TABLE, ra) ->
  read_int h ra = Ok (index, r) ->
  objects r0 !! index = None ->
  read_int h r = Ok (size, r1) ->
  table_run (read_obj h o fuel) (VRef (length (store r1)))
            (mkT7Reader (fileobj r1) (objects r1) (store r1 ++ [ODict []]))
            kvs r2 ->
  length kvs = Z.to_nat size ->
  (forall b, VBool b ∉ kvs.*1) ->
  (list_like kvs.*1
   /\ exists l,
       read_obj h o (S fuel) r0 =
       Ok (VRef (length (store r2)),
           mkT7Reader (fileobj r2)
                      (<[index := VRef (length (store r2))]> (objects r2))
                      (store r2 ++ [OList l]))
       /\ length l = length kvs
       /\ forall (i : nat) v, (VInt (Z.of_nat i + 1), v) ∈ kvs -> l !! i = Some v)
  \/ (~ list_like kvs.*1
      /\ read_obj h o (S fuel) r0 =
         Ok (VRef (length (store r1)),
             mkT7Reader (fileobj r2)
                        (<[index := VRef (length (store r1))]> (objects r2))
                        (store r2))
      /\ exists d, store r2 !! length (store r1) = Some (ODict d)).
Proof.
  intros Hu E0 E1 Hn Es Hrun Hlen Hnb.
  rewrite (read_obj_table_new fuel _ _ _ _ E0 E1 Hn).
  exact (read_table_spec h o fuel index r size r1 kvs r2 Hu Es Hrun Hlen Hnb).
Qed.

End TableClaims.

(** ** Without the int heuristic no key is an integer *)

Section NoIntHeuristic.

Context (h : host) (o : options).

Ltac kept E H := cbv beta in E; rewrite <- E in H; clear E.

Lemma keeps_read c r :
  wp true (_read h c) (fun _ r' => objects r' = objects r) r.
Proof.
  eapply wp_mono; [apply wp_read|]. by intros z r' (bs & (_ & O & _) & _).
Qed.

Lemma keeps_read_int r :
  wp true (read_int h) (fun _ r' => objects r' = objects r) r.
Proof. apply keeps_read. Qed.

Lemma keeps_f_read size r :
  wp true (f_read size) (fun _ r' => objects r' = objects r) r.
Proof.
  eapply wp_mono; [apply wp_f_read|]. by intros bs r' (_ & O & _).
Qed.

Lemma keeps_read_long r :
  wp true (read_long h o) (fun _ r' => objects r' = objects r) r.
Proof.
  eapply wp_mono; [apply wp_read_long|]. by intros z r' (bs & _ & O & _).
Qed.

Lemma keeps_read_string r :
  wp true (read_string h) (fun _ r' => objects r' = objects r) r.
Proof.
  unfold read_string.
  eapply wp_bind'; [apply keeps_read_int|]. intros size r1 E1.
  eapply wp_bind'; [apply keeps_f_read|]. intros bs r2 E2.
  destruct (utf8_decode bs); [|apply wp_raise].
  apply wp_ret. cbv beta in *. congruence.
Qed.

Lemma keeps_read_long_array n r :
  wp true (read_long_array h o n) (fun _ r' => objects r' = objects r) r.
Proof.
  unfold read_long_array. destruct (force_8bytes_long o).
  - apply (wp_for_in true _ _ (fun _ r' => objects r' = objects r)); [|done].
    intros _ lst r1 E1.
    eapply wp_bind'; [apply keeps_read_long|]. intros x r2 E2.
    apply wp_ret. cbv beta in *. congruence.
  - unfold array_fromfile. destruct (n <? 0); [apply wp_raise|].
    eapply wp_bind'; [apply keeps_f_read|]. intros bs r1 E1.
    destruct (negb _); [apply wp_raise|].
    destruct (negb _); [apply wp_raise|].
    by apply wp_ret.
Qed.

Lemma keeps_alloc ob r :
  wp true (alloc ob) (fun v r' => is_ref v /\ objects r' = objects r) r.
Proof. split; [by eexists | done]. Qed.

Lemma keeps_read_class_name r :
  wp true (read_class_name h) (fun _ r' => objects r' = objects r) r.
Proof.
  unfold read_class_name.
  eapply wp_bind'; [apply keeps_read_string|]. intros version r1 E1.
  destruct (startswith _ _); [|by apply wp_ret].
  destruct (int_of_str h _); [|apply wp_raise].
  eapply wp_bind'; [apply keeps_read_string|]. intros cn r2 E2.
  apply wp_ret. cbv beta in *. congruence.
Qed.

Lemma clean_call_reader rd className rec version r :
  rec_clean rec -> refs_only (objects r) ->
  wp true (call_reader h o rd className rec version)
     (fun v r' => is_ref v /\ refs_only (objects r')) r.
Proof.
  intros Hrec Hr. destruct rd; simpl.
  - unfold read_tensor_generic.
    eapply wp_bind'; [apply keeps_read_int|]. intros ndim r1 E1. kept E1 Hr.
    eapply wp_bind'; [apply keeps_read_long_array|]. intros sz r2 E2. kept E2 Hr.
    eapply wp_bind'; [apply keeps_read_long_array|]. intros st r3 E3. kept E3 Hr.
    eapply wp_bind'; [apply keeps_read_long|]. intros l r4 E4. kept E4 Hr.
    eapply wp_bind'; [by apply Hrec|]. intros storage r5 [_ H5].
    destruct (_ || _).
    + eapply wp_mono; [apply keeps_alloc|]. intros v r6 [Hv E6].
      split; [done|]. by rewrite E6.
    + eapply wp_bind'; [apply wp_get_ndarray|]. intros [a x] r6 ->.
      eapply wp_bind'.
      { apply wp_lift with (Q := fun _ r' => r' = r5);
          [apply slice_from_total | done]. }
      intros view r6 ->. unfold as_strided.
      destruct (np_accepts _ _ _ _); [|apply wp_raise].
      eapply wp_mono; [apply keeps_alloc|]. intros v r6 [Hv E6].
      split; [done|]. by rewrite E6.
  - unfold read_storage.
    eapply wp_bind'; [apply keeps_read_long|]. intros size r1 E1. kept E1 Hr.
    unfold wp, np_fromfile, alloc. simpl. split; [by eexists | done].
  - unfold trivial_class_reader.
    eapply wp_bind'; [by apply Hrec|]. intros obj r1 [_ H1].
    eapply wp_mono; [apply keeps_alloc|]. intros v r2 [Hv E2].
    split; [done|]. by rewrite E2.
Qed.

Lemma clean_objects_set index v r :
  is_ref v -> refs_only (objects r) ->
  wp true (objects_set index v) (fun _ r' => refs_only (objects r')) r.
Proof. intros Hv Hr. by apply map_Forall_insert_2. Qed.

Lemma not_int_ref v : is_ref v -> not_int v.
Proof. by intros [a ->] z. Qed.

Lemma clean_register index obj r :
  is_ref obj -> refs_only (objects r) ->
  wp true (let* _ := objects_set index obj in ret obj)
     (fun v r' => not_int v /\ refs_only (objects r')) r.
Proof.
  intros Hv Hr.
  eapply wp_bind'; [by apply clean_objects_set|]. intros [] r1 H1.
  apply wp_ret. split; [by apply not_int_ref | done].
Qed.

Lemma clean_read_function index rec r :
  rec_clean rec -> refs_only (objects r) ->
  wp true (read_function h index rec)
     (fun v r' => not_int v /\ refs_only (objects r')) r.
Proof.
  intros Hrec Hr. unfold read_function.
  eapply wp_bind'; [apply keeps_read_int|]. intros size r1 E1. kept E1 Hr.
  eapply wp_bind'; [apply keeps_f_read|]. intros dumped r2 E2. kept E2 Hr.
  eapply wp_bind'; [by apply Hrec|]. intros up r3 [_ H3].
  eapply wp_bind'; [apply keeps_alloc|]. intros obj r4 [Hv E4]. kept E4 H3.
  by apply clean_register.
Qed.

Lemma clean_read_torch index rec r :
  rec_clean rec -> refs_only (objects r) ->
  wp true (read_torch h o index rec)
     (fun v r' => not_int v /\ refs_only (objects r')) r.
Proof.
  intros Hrec Hr. unfold read_torch.
  eapply wp_bind'; [apply keeps_read_class_name|].
  intros [version className] r1 E1. kept E1 Hr.
  eapply wp_bind' with (P := fun v r' => is_ref v /\ refs_only (objects r')).
  - destruct (torch_readers className) as [rd|].
    + by apply clean_call_reader.
    + destruct (negb _); [apply wp_raise|].
      eapply wp_bind'; [by apply Hrec|]. intros x r2 [_ H2].
      eapply wp_mono; [apply keeps_alloc|]. intros v r3 [Hv E3].
      split; [done|]. by rewrite E3.
  - intros obj r2 [Hv H2]. by apply clean_register.
Qed.

Lemma clean_read_table index rec r :
  rec_clean rec -> refs_only (objects r) ->
  wp true (read_table h o index rec)
     (fun v r' => not_int v /\ refs_only (objects r')) r.
Proof.
  intros Hrec Hr. unfold read_table.
  eapply wp_bind'; [apply keeps_read_int|]. intros size r1 E1. kept E1 Hr.
  eapply wp_bind'; [apply keeps_alloc|]. intros obj r2 [[a ->] E2]. kept E2 Hr.
  eapply wp_bind' with (P := fun _ r' => refs_only (objects r')).
  { apply wp_for_in; [|exact Hr]. intros _ acc ri Hi.
    eapply wp_bind'; [by apply Hrec|]. intros k rj [_ Hj].
    eapply wp_bind'; [by apply Hrec|]. intros v rk [_ Hk].
    eapply wp_bind'; [apply wp_dict_setitem|].
    intros [] rl (_ & El & _). apply wp_ret. by rewrite El. }
  intros [key_sum keys_natural] r3 H3.
  eapply wp_bind' with (P := fun v r' => is_ref v /\ refs_only (objects r')).
  - destruct (use_list_heuristic o); [|apply wp_ret; split; [by eexists | done]].
    eapply wp_bind'; [apply wp_dict_items|]. intros d r4 ->.
    destruct (_ && _); [|apply wp_ret; split; [by eexists | done]].
    eapply wp_bind' with (P := fun _ r' => r' = r3).
    + apply wp_for_in; [|done]. intros i lst ri ->.
      eapply wp_bind'; [apply wp_dict_getitem|]. intros x rj ->.
      by apply wp_ret.
    + intros lst r4 ->.
      eapply wp_mono; [apply keeps_alloc|]. intros v r4 [Hv E4].
      split; [done|]. by rewrite E4.
  - intros obj r4 [Hv H4]. by apply clean_register.
Qed.

Lemma clean_read_obj_body rec r :
  use_int_heuristic o = false ->
  rec_clean rec -> refs_only (objects r) ->
  wp true (read_obj_body h o rec)
     (fun v r' => not_int v /\ refs_only (objects r')) r.
Proof.
  intros Hno Hrec Hr. unfold read_obj_body.
  eapply wp_bind'; [apply keeps_read_int|]. intros typeidx r1 E1. kept E1 Hr.
  destruct (typeidx =? TYPE_NIL); [by apply wp_ret|].
  destruct (typeidx =? TYPE_NUMBER).
  { unfold read_double. apply wp_bind.
    eapply wp_bind'; [apply keeps_read|]. intros bits r2 E2. kept E2 Hr.
    apply wp_ret. rewrite Hno. simpl. by apply wp_ret. }
  destruct (typeidx =? TYPE_BOOLEAN).
  { unfold read_boolean. apply wp_bind.
    eapply wp_bind'; [apply keeps_read_int|]. intros i r2 E2. kept E2 Hr.
    apply wp_ret. by apply wp_ret. }
  destruct (typeidx =? TYPE_STRING).
  { eapply wp_bind'; [apply keeps_read_string|]. intros s r2 E2. kept E2 Hr.
    by apply wp_ret. }
  destruct (is_indexed_type typeidx); [|apply wp_raise].
  eapply wp_bind'; [apply keeps_read_int|]. intros index r2 E2. kept E2 Hr.
  eapply wp_bind'; [apply wp_objects_get|]. intros loaded r3 [-> ->].
  destruct (objects r2 !! index) as [obj|] eqn:El.
  { apply wp_ret. split; [|done]. apply not_int_ref. by apply (Hr index). }
  destruct (is_function_type typeidx); [by apply clean_read_function|].
  destruct (typeidx =? TYPE_TORCH);
    [by apply clean_read_torch | by apply clean_read_table].
Qed.

Lemma clean_read_obj fuel :
  use_int_heuristic o = false -> rec_clean (read_obj h o fuel).
Proof.
  intros Hno. induction fuel as [|fuel IH]; intros r Hr.
  - reflexivity.
  - simpl. by apply clean_read_obj_body.
Qed.

(** X23. With the int heuristic off, a table one of whose keys is not the
    boolean [True] is never converted: the keys read are no integers, so
    that the test of the list heuristic fails. *)
Lemma read_table_no_int_heuristic fuel index r size r1 kvs r2 :
  use_int_heuristic o = false ->
  refs_only (objects r) ->
  read_int h r = Ok (size, r1) ->
  table_run (read_obj h o fuel) (VRef (length (store r1)))
            (mkT7Reader (fileobj r1) (objects r1) (store r1 ++ [ODict []]))
            kvs r2 ->
  length kvs = Z.to_nat size ->
  (exists k, k ∈ kvs.*1 /\ k <> VBool true) ->
  read_table h o index (read_obj h o fuel) r =
  Ok (VRef (length (store r1)),
      mkT7Reader (fileobj r2)
                 (<[index := VRef (length (store r1))]> (objects r2))
                 (store r2))
  /\ exists d, store r2 !! length (store r1) = Some (ODict d).
Proof.
  intros Hno Hr Es Hrun Hlen (k0 & Hk0 & Hne).
  assert (refs_only (objects r1)) as Hr1.
  { destruct (read_int_same h _ _ _ Es) as (_ & _ & -> & _). done. }
  assert (Forall not_int kvs.*1) as Hkeys.
  { clear Hlen Hk0.
    remember (mkT7Reader (fileobj r1) (objects r1) (store r1 ++ [ODict []]))
      as ri eqn:Ei.
    assert (refs_only (objects ri)) as Hi by (by subst ri).
    clear Ei.
    induction Hrun as [ri|ri k rj v rk rl kvs r' Ek Ev Eset _ IH];
      [constructor|].
    pose proof (wp_ok _ _ _ _ _ _ (clean_read_obj fuel Hno ri Hi) Ek)
      as [Hk Hj].
    pose proof (wp_ok _ _ _ _ _ _ (clean_read_obj fuel Hno rj Hj) Ev)
      as [_ Hk'].
    apply dict_setitem_ok in Eset as (d & _ & ->).
    rewrite fmap_cons. constructor; [done|]. by apply IH. }
  assert (forallb (fun kv => natural_key (fst kv)) kvs = false) as Hnat.
  { apply not_true_is_false. intros Hall.
    rewrite forallb_forall in Hall.
    apply list_elem_of_fmap in Hk0 as ([k v] & -> & Hin).
    rewrite Forall_fmap, Forall_forall in Hkeys.
    specialize (Hkeys _ Hin). simpl in Hkeys, Hne.
    apply list_elem_of_In in Hin. specialize (Hall _ Hin). simpl in Hall.
    destruct k as [|z|x|[]|s|a]; try done. by apply (Hkeys z). }
  remember (length (store r1)) as a eqn:Ea.
  assert (length (range size) = length kvs) as Hrange
      by (unfold range; by rewrite length_seqZ).
  destruct (table_run_dict _ _ _ _ _ Hrun) as [d Hd].
  { exists []. simpl. by apply list_lookup_middle. }
  split; [|eauto].
  unfold read_table.
  rewrite (bind_ok _ _ _ _ _ Es), (bind_ok _ _ _ _ _ (alloc_ok _ r1)).
  rewrite <- Ea.
  rewrite (bind_ok _ _ _ _ _
             (for_in_table_run o _ _ _ _ _ Hrun (range size) (0, true) Hrange)).
  destruct (use_list_heuristic o) eqn:Hu.
  - rewrite (heuristic_fold o kvs 0 true Hu), Hnat. cbv iota.
    unfold bind at 1.
    rewrite (bind_ok _ _ _ _ _ (dict_items_ok _ _ _ Hd)). reflexivity.
  - destruct (fold_left _ kvs (0, true)) as [ks kn]. reflexivity.
Qed.

End NoIntHeuristic.

(** ** An index is registered after the object is read *)

Lemma dict_setitem_inv obj k v r r' :
  dict_setitem obj k v r = Ok (tt, r') ->
  exists a d,
    obj = VRef a /\ store r !! a = Some (ODict d)
    /\ hashable (length (store r)) (store r) k = true
    /\ r' = mkT7Reader (fileobj r) (objects r)
              (<[a := ODict (dict_set (key_eqb (length (store r)) (store r))
                                      d k v)]> (store r)).
Proof.
  unfold dict_setitem. destruct obj as [| | | | |a]; try done.
  destruct (store r !! a) as [[d| | | |]|] eqn:Ha; try done.
  destruct (hashable _ _ k) eqn:Hh; [|done]. intros [= <-].
  exists a, d. by rewrite Ha.
Qed.












Section RegistersLast.

Context (h : host) (o : options).

























End RegistersLast.

(** What [read_string] does right: bytes below 128, the zero byte among
    them, decode to the code points of the same values. *)
Lemma utf8_decode_ascii (bs : list byte) :
  Forall (fun b => byte_val b < 128) bs ->
  utf8_decode bs = Some (map (fun b => Z.to_N (byte_val b)) bs).
Proof.
  induction 1 as [|b bs Hb _ IH]; [done|].
  simpl. apply Z.ltb_lt in Hb. rewrite Hb, IH. done.
Qed.

(** * The claims on concrete streams *)

(** The tests of the list heuristic: keys 1, 2, 3 give the list
    ["a", "b", "c"]; a gap leaves the dict; an empty table gives the empty
    list. *)
Example load_table_abc :
  load linux64 default_options table_abc =
  Ok (VRef 1%nat,
      reader_at [] {[1 := VRef 1%nat]}
                [ODict [(VInt 1, str_a); (VInt 2, str_b); (VInt 3, str_c)];
                 OList [str_a; str_b; str_c]]).
Proof. vm_compute. reflexivity. Qed.

Example load_table_gap :
  load linux64 default_options table_gap =
  Ok (VRef 0%nat,
      reader_at [] {[1 := VRef 0%nat]}
                [ODict [(VInt 1, str_a); (VInt 2, str_b); (VInt 4, str_c)]]).
Proof. vm_compute. reflexivity. Qed.

Example load_table_empty :
  load linux64 default_options table_empty =
  Ok (VRef 1%nat, reader_at [] {[1 := VRef 1%nat]} [ODict []; OList []]).
Proof. vm_compute. reflexivity. Qed.

(** Int narrowing: 4.0 becomes 4, and stays 4.0 without the heuristic. *)
Example load_number_4 :
  load linux64 default_options (enc_number bits_4) = Ok (VInt 4, new_reader [])
  /\ load linux64 no_int_heuristic (enc_number bits_4) =
     Ok (VFloat (S754_finite false 4503599627370496 (-50)), new_reader []).
Proof. split; vm_compute; reflexivity. Qed.

(** The two tensors over the storage 0..5: strides [3, 1] and [1, 2] in
    elements become [12, 4] and [4, 8] in bytes. *)
Example load_tensor_2x3 :
  load linux64 default_options (tensor_2x3 3 1) =
  Ok (VRef 1%nat,
      reader_at [] {[2 := VRef 0%nat; 1 := VRef 1%nat]}
                [ONdarray storage_array;
                 ONdarray (NdArray int32 (Some 0%nat) [] 0 [2; 3] [12; 4])])
  /\ load linux64 default_options (tensor_2x3 1 2) =
     Ok (VRef 1%nat,
         reader_at [] {[2 := VRef 0%nat; 1 := VRef 1%nat]}
                   [ONdarray storage_array;
                    ONdarray (NdArray int32 (Some 0%nat) [] 0 [2; 3] [4; 8])]).
Proof. split; vm_compute; reflexivity. Qed.

(** An index read twice gives the same object twice: both entries of the
    outer table are the reference to the one inner object. *)
Example load_table_shared :
  load linux64 default_options table_shared =
  Ok (VRef 3%nat,
      reader_at [] {[2 := VRef 2%nat; 1 := VRef 3%nat]}
                [ODict [(VInt 1, VRef 2%nat); (VInt 2, VRef 2%nat)];
                 ODict []; OList []; OList [VRef 2%nat; VRef 2%nat]]).
Proof. vm_compute. reflexivity. Qed.


(** C6, counterexample. A tensor of the sizes [-2, 3] over a storage of
    six elements is none of the degenerate cases, and yet no view is
    returned: numpy refuses the negative dimension and the read raises. *)
Lemma load_tensor_negative_size :
  load linux64 default_options (tensor_over (-2) 1) = Raise ValueError.
Proof. vm_compute. reflexivity. Qed.

(** A tensor of the sizes [2, 3] whose 1-based offset is 0: the view does
    not start one element before the storage but at its last element, byte
    20 of the 24, as [storage[-1:]] does. *)
Lemma load_tensor_offset_0 :
  load linux64 default_options (tensor_over 2 0) =
  Ok (VRef 1%nat,
      reader_at [] (<[1 := VRef 1%nat]> (<[2 := VRef 0%nat]> ∅))
                [ONdarray storage_array;
                 ONdarray (NdArray int32 (Some 0%nat) [] 20 [2; 3] [12; 4])]).
Proof. vm_compute. reflexivity. Qed.

(** C3, counterexample. Every key of the stream [table_dup] is the
    positive integer 1 and its distinct keys are [{1}], that is [{1..n}]
    for the [n = 1] distinct keys; the table is not converted. *)
Lemma load_table_dup_stays_dict :
  (forall k, k ∈ [VInt 1; VInt 1] -> exists z, k = VInt z /\ 0 < z)
  /\ (forall z, VInt z ∈ [VInt 1; VInt 1] <-> 1 <= z <= 1)
  /\ load linux64 default_options table_dup =
     Ok (VRef 0%nat, reader_at [] {[1 := VRef 0%nat]} [ODict [(VInt 1, str_b)]]).
Proof.
  split; [|split].
  - intros k Hk. exists 1. split; [|lia].
    apply elem_of_cons in Hk as [->|Hk]; [done|].
    apply elem_of_cons in Hk as [->|Hk]; [done|]. by apply elem_of_nil in Hk.
  - intros z. rewrite !elem_of_cons, elem_of_nil. split.
    + intros [[= ->]|[[= ->]|[]]]; lia.
    + intros Hz. left. f_equal. lia.
  - vm_compute. reflexivity.
Qed.

(** C4, counterexample. A string whose length prefix announces more bytes
    than the stream holds is returned shortened, without any error. *)
Lemma read_string_short_payload :
  ~ (forall (hst : host) r size r1,
        read_int hst r = Ok (size, r1) ->
        Z.of_nat (length (fileobj r1)) < size ->
        exists e, read_string hst r = Raise e).
Proof.
  intros H.
  destruct (H linux64 (new_reader short_string) 5
              (new_reader (ascii_bytes "ab"))) as [e He].
  - vm_compute. reflexivity.
  - vm_compute. reflexivity.
  - vm_compute in He. discriminate.
Qed.

(** C5. A string payload that is not valid UTF-8 is refused:
    [bytes.decode()] raises [UnicodeDecodeError]. *)
Theorem read_string_refuses_non_utf8 :
  read_string linux64 (new_reader latin1_string) = Raise UnicodeDecodeError.
Proof. vm_compute. reflexivity. Qed.

(** The same eight bytes read with the default options: a host whose
    [long] has four bytes consumes four of them, a host whose [long] has
    eight consumes them all; [force_8bytes_long] reads eight on both. *)
Example read_long_by_host :
  read_long windows default_options (new_reader (le_bytes 8 7)) =
  Ok (7, new_reader (le_bytes 4 0))
  /\ read_long linux64 default_options (new_reader (le_bytes 8 7)) =
     Ok (7, new_reader [])
  /\ read_long windows (Options true true true true)
               (new_reader (le_bytes 8 7)) =
     Ok (7, new_reader []).
Proof. repeat split; vm_compute; reflexivity. Qed.

(** C8, counterexample. With the default options, on a host whose [long]
    has eight bytes, [read_long] consumes eight bytes, not four. *)
Lemma read_long_default_not_4_bytes :
  ~ (forall (hst : host) r v r',
        read_long hst default_options r = Ok (v, r') ->
        fileobj r' = drop 4 (fileobj r)).
Proof.
  intros H.
  specialize (H linux64 (new_reader (le_bytes 8 7)) 7 (new_reader [])).
  vm_compute in H. specialize (H eq_refl). discriminate.
Qed.

(** C10. Without the int heuristic, the table [{true: "a"}] still becomes
    the list ["a"]: [True] is an [int] for [isinstance], and counts as
    the key 1. *)
Theorem load_table_true_becomes_list :
  load linux64 no_int_heuristic table_true =
  Ok (VRef 1%nat,
      reader_at [] {[1 := VRef 1%nat]}
                [ODict [(VBool true, str_a)]; OList [str_a]]).
Proof. vm_compute. reflexivity. Qed.

(** * The theorems at concrete inputs *)

(** The second occurrence of index 2, with the list at address 0 loaded. *)
Lemma read_obj_repeated_index_witness :
  let r := reader_at (enc_int TYPE_TABLE ++ enc_int 2)
                     {[2 := VRef 0%nat]} [OList []] in
  let r2 := reader_at [] {[2 := VRef 0%nat]} [OList []] in
  read_obj linux64 default_options 1 r = Ok (VRef 0%nat, r2)
  /\ (8 <= length (fileobj r))%nat
  /\ fileobj r2 = drop 8 (fileobj r)
  /\ objects r2 = objects r
  /\ store r2 = store r.
Proof.
  apply (read_obj_repeated_index linux64 default_options 0
           (reader_at (enc_int TYPE_TABLE ++ enc_int 2)
                      {[2 := VRef 0%nat]} [OList []])
           TYPE_TABLE
           (reader_at (enc_int 2) {[2 := VRef 0%nat]} [OList []])
           2
           (reader_at [] {[2 := VRef 0%nat]} [OList []])
           (VRef 0%nat)).
  - vm_compute. reflexivity.
  - reflexivity.
  - vm_compute. reflexivity.
  - vm_compute. reflexivity.
Defined.

(** The Number 4.0 with the default options. *)
Lemma read_obj_number_witness :
  read_obj linux64 default_options 1 (new_reader (enc_number bits_4)) =
  Ok (VInt 4, new_reader []).
Proof.
  apply (proj1 (read_obj_number linux64 default_options 0
                  (new_reader (enc_number bits_4))
                  (new_reader (le_bytes 8 bits_4))
                  (S754_finite false 4503599627370496 (-50))
                  (new_reader [])
                  ltac:(vm_compute; reflexivity)
                  ltac:(vm_compute; reflexivity))).
  - reflexivity.
  - vm_compute. reflexivity.
Defined.

(** Eight bytes read on a host whose [long] has eight bytes. *)
Lemma read_long_width_witness :
  let r := new_reader (le_bytes 8 7) in
  (8 <= length (fileobj r))%nat
  /\ fileobj (new_reader []) = drop 8 (fileobj r)
  /\ 7 = le_signed (take 8 (fileobj r))
  /\ objects (new_reader []) = objects r
  /\ store (new_reader []) = store r.
Proof.
  apply (read_long_width linux64 default_options
           (new_reader (le_bytes 8 7)) 7 (new_reader [])).
  vm_compute. reflexivity.
Defined.

(** An int read from two bytes, and a string of announced length 5 with
    two bytes of payload. *)
Lemma truncated_reads_witness :
  _read linux64 Fmt_i (new_reader [x01; x02]) = Raise StructError
  /\ read_string linux64 (new_reader short_string) =
     match utf8_decode (ascii_bytes "ab") with
     | Some s => Ok (s, new_reader [])
     | None => Raise UnicodeDecodeError
     end.
Proof.
  apply (truncated_reads linux64 Fmt_i (new_reader [x01; x02])
           (new_reader short_string) 5 (new_reader (ascii_bytes "ab"))).
  - simpl. lia.
  - vm_compute. reflexivity.
  - simpl. lia.
Defined.

(** The class [nn.Foo], lenient and strict. *)
Lemma read_obj_unregistered_class_witness :
  read_obj linux64 default_options 2 (new_reader unknown_class) =
  Ok (VRef 0%nat,
      reader_at [] {[1 := VRef 0%nat]}
                [OTorchObject (str_of_string "nn.Foo") (VInt 4)])
  /\ read_obj linux64 strict_options 2 (new_reader unknown_class) =
     Raise (T7ReaderException (UnsupportedTorchClass (str_of_string "nn.Foo"))).
Proof.
  split.
  - apply (proj1 (read_obj_unregistered_class linux64 default_options 1
                    (new_reader unknown_class)
                    (new_reader (drop 4 unknown_class))
                    1
                    (new_reader (drop 8 unknown_class))
                    (str_of_string "nn.Foo") (str_of_string "nn.Foo")
                    (new_reader (enc_number bits_4))
                    ltac:(vm_compute; reflexivity)
                    ltac:(vm_compute; reflexivity)
                    ltac:(vm_compute; reflexivity)
                    ltac:(vm_compute; reflexivity)
                    ltac:(vm_compute; reflexivity))
                 eq_refl (VInt 4) (new_reader [])).
    vm_compute. reflexivity.
  - apply (proj2 (read_obj_unregistered_class linux64 strict_options 1
                    (new_reader unknown_class)
                    (new_reader (drop 4 unknown_class))
                    1
                    (new_reader (drop 8 unknown_class))
                    (str_of_string "nn.Foo") (str_of_string "nn.Foo")
                    (new_reader (enc_number bits_4))
                    ltac:(vm_compute; reflexivity)
                    ltac:(vm_compute; reflexivity)
                    ltac:(vm_compute; reflexivity)
                    ltac:(vm_compute; reflexivity)
                    ltac:(vm_compute; reflexivity))
                 eq_refl).
Defined.

(** The tensor of size [2, 3] and strides [3, 1] over the storage 0..5. *)
Lemma read_tensor_generic_spec_witness :
  read_tensor_generic linux64 default_options int32
                      (read_obj linux64 default_options 3)
                      (str_of_string "V 1")
                      (new_reader (tensor_payload 3 1)) =
  Ok (VRef 1%nat,
      reader_at [] {[2 := VRef 0%nat]}
                [ONdarray storage_array;
                 ONdarray (NdArray int32 (Some 0%nat) [] 0 [2; 3] [12; 4])]).
Proof.
  refine (proj2 (proj2 (read_tensor_generic_spec linux64 default_options int32
                  (read_obj linux64 default_options 3)
                  (str_of_string "V 1")
                  (new_reader (tensor_payload 3 1))
                  2 (new_reader (drop 4 (tensor_payload 3 1)))
                  [2; 3] (new_reader (drop 20 (tensor_payload 3 1)))
                  [3; 1] (new_reader (drop 36 (tensor_payload 3 1)))
                  1 (new_reader storage_0_5)
                  (VRef 0%nat)
                  (reader_at [] {[2 := VRef 0%nat]} [ONdarray storage_array])
                  ltac:(vm_compute; reflexivity)
                  ltac:(vm_compute; reflexivity)
                  ltac:(vm_compute; reflexivity)
                  ltac:(vm_compute; reflexivity)
                  ltac:(vm_compute; reflexivity))
               0%nat storage_array 6 _ _ _ _ _ _)).
  - reflexivity.
  - reflexivity.
  - repeat split.
  - discriminate.
  - discriminate.
  - discriminate.
Defined.

(** The table with the single pair [1: "a"]. *)
Lemma read_obj_table_list_heuristic_witness :
  let kvs := [(VInt 1, str_a)] in
  let r2 := reader_at [] ∅ [ODict kvs] in
  (list_like kvs.*1
   /\ exists l,
       read_obj linux64 default_options 2 (new_reader table_one) =
       Ok (VRef 1%nat,
           reader_at [] (<[1 := VRef 1%nat]> ∅) ([ODict kvs] ++ [OList l]))
       /\ length l = length kvs
       /\ forall (i : nat) v, (VInt (Z.of_nat i + 1), v) ∈ kvs -> l !! i = Some v)
  \/ (~ list_like kvs.*1
      /\ read_obj linux64 default_options 2 (new_reader table_one) =
         Ok (VRef 0%nat, reader_at [] (<[1 := VRef 0%nat]> ∅) [ODict kvs])
      /\ exists d, store r2 !! 0%nat = Some (ODict d)).
Proof.
  apply (read_obj_table_list_heuristic linux64 default_options 1
           (new_reader table_one)
           (new_reader (drop 4 table_one))
           1
           (new_reader (drop 8 table_one))
           1
           (new_reader (drop 12 table_one))
           [(VInt 1, str_a)]
           (reader_at [] ∅ [ODict [(VInt 1, str_a)]])).
  - reflexivity.
  - vm_compute. reflexivity.
  - vm_compute. reflexivity.
  - vm_compute. reflexivity.
  - vm_compute. reflexivity.
  - apply (table_run_cons _ _
             (reader_at (drop 12 table_one) ∅ [ODict []])
             (VInt 1)
             (reader_at (drop 24 table_one) ∅ [ODict []])
             str_a
             (reader_at [] ∅ [ODict []])
             (reader_at [] ∅ [ODict [(VInt 1, str_a)]])).
    + vm_compute. reflexivity.
    + vm_compute. reflexivity.
    + vm_compute. reflexivity.
    + apply table_run_nil.
  - reflexivity.
  - intros b Hb. apply elem_of_cons in Hb as [Hb|Hb]; [discriminate|].
    by apply elem_of_nil in Hb.
Defined.


(** * Further properties of the reader *)

(** ** Decoding what was encoded *)

Lemma byte_val_byte_of_Z z : byte_val (byte_of_Z z) = z mod 256.
Proof.
  unfold byte_of_Z, byte_val.
  assert (0 <= z mod 256 < 256) as Hb by (apply Z.mod_pos_bound; lia).
  destruct (Byte.of_N (Z.to_N (z mod 256))) as [b|] eqn:E; simpl.
  - apply Byte.to_of_N in E. rewrite E. apply Z2N.id. lia.
  - apply Byte.of_N_None_iff in E. lia.
Qed.

Lemma length_le_bytes n z : length (le_bytes n z) = n.
Proof. revert z. induction n as [|n IH]; intros z; simpl; [done|]. by rewrite IH. Qed.

Lemma le_unsigned_le_bytes n z :
  le_unsigned (le_bytes n z) = z mod 2 ^ (8 * Z.of_nat n).
Proof.
  revert z. induction n as [|n IH]; intros z.
  - simpl. by rewrite Z.mod_1_r.
  - cbn [le_bytes le_unsigned]. rewrite byte_val_byte_of_Z, IH.
    replace (8 * Z.of_nat (S n)) with (8 + 8 * Z.of_nat n) by lia.
    rewrite Z.pow_add_r by lia. change (2 ^ 8) with 256.
    rewrite Z.rem_mul_r; [done | lia | apply Z.pow_pos_nonneg; lia].
Qed.

Lemma le_signed_le_bytes n z :
  (0 < n)%nat ->
  - 2 ^ (8 * Z.of_nat n - 1) <= z < 2 ^ (8 * Z.of_nat n - 1) ->
  le_signed (le_bytes n z) = z.
Proof.
  intros Hn Hz. unfold le_signed, to_signed.
  rewrite length_le_bytes, le_unsigned_le_bytes.
  set (k := 8 * Z.of_nat n) in *.
  assert (2 ^ k = 2 * 2 ^ (k - 1)) as Hk.
  { rewrite <- Z.pow_succ_r by lia. f_equal. lia. }
  assert (0 < 2 ^ (k - 1)) by (apply Z.pow_pos_nonneg; lia).
  destruct (Z.le_gt_cases 0 z) as [Hpos|Hneg].
  - rewrite Z.mod_small by lia.
    destruct (Z.ltb_spec z (2 ^ (k - 1))); lia.
  - rewrite <- (Z.mod_add z 1) by lia. rewrite Z.mod_small by lia.
    destruct (Z.ltb_spec (z + 1 * 2 ^ k) (2 ^ (k - 1))); lia.
Qed.

Section RoundTrips.

Context (h : host) (o : options).

(** The [n] bytes of a format, decoded after [_read] took them from the
    front of the stream. *)
Lemma _read_app c bs rest objs sto :
  length bs = calcsize h c ->
  _read h c (mkT7Reader (bs ++ rest) objs sto) =
  Ok (unpacked c bs, mkT7Reader rest objs sto).
Proof.
  intros Hl. rewrite _read_enough by (simpl; rewrite length_app; lia).
  simpl. by rewrite <- Hl, take_app_length, drop_app_length.
Qed.

(** X1. [read_int] decodes four bytes, little-endian and two's complement:
    it gives back every 32-bit integer from its encoding and leaves the
    rest of the stream. *)
Theorem read_int_enc_int z rest objs sto :
  - 2 ^ 31 <= z < 2 ^ 31 ->
  read_int h (mkT7Reader (enc_int z ++ rest) objs sto) =
  Ok (z, mkT7Reader rest objs sto).
Proof.
  intros Hz. unfold read_int, enc_int.
  rewrite _read_app by apply length_le_bytes.
  unfold unpacked. by rewrite le_signed_le_bytes by (simpl; lia).
Qed.

Lemma long_size_pos : (0 < long_size h o)%nat.
Proof.
  unfold long_size. destruct (force_8bytes_long o); [lia|].
  destruct (sizeof_long h); simpl; lia.
Qed.

(** X2. [read_long] gives back every integer that fits its width from the
    bytes of that width, and leaves the rest of the stream. *)
Theorem read_long_le_bytes z rest objs sto :
  - 2 ^ (8 * Z.of_nat (long_size h o) - 1) <= z
    < 2 ^ (8 * Z.of_nat (long_size h o) - 1) ->
  read_long h o (mkT7Reader (le_bytes (long_size h o) z ++ rest) objs sto) =
  Ok (z, mkT7Reader rest objs sto).
Proof.
  intros Hz. pose proof long_size_pos as Hp.
  unfold read_long, long_size in *.
  destruct (force_8bytes_long o);
    rewrite _read_app by apply length_le_bytes;
    unfold unpacked; by rewrite le_signed_le_bytes.
Qed.

(** X3. [read_string] on a payload of bytes below 128, zero bytes among them:
    the string has the code points of the bytes, and the stream is left
    right after the payload. *)
Theorem read_string_ascii payload rest objs sto :
  Forall (fun b => byte_val b < 128) payload ->
  Z.of_nat (length payload) < 2 ^ 31 ->
  read_string h
    (mkT7Reader (enc_int (Z.of_nat (length payload)) ++ payload ++ rest)
                objs sto) =
  Ok (map (fun b => Z.to_N (byte_val b)) payload, mkT7Reader rest objs sto).
Proof.
  intros Ha Hl. unfold read_string.
  assert (- 2 ^ 31 <= Z.of_nat (length payload) < 2 ^ 31) as Hr.
  { split; [|done]. change (2 ^ 31) with 2147483648. lia. }
  assert (read_int h (mkT7Reader (enc_int (Z.of_nat (length payload))
                                  ++ payload ++ rest) objs sto)
          = Ok (Z.of_nat (length payload),
                mkT7Reader (payload ++ rest) objs sto)) as Hi.
  { unfold read_int, enc_int. rewrite _read_app by apply length_le_bytes.
    unfold unpacked. by rewrite le_signed_le_bytes by (simpl; lia). }
  rewrite (bind_ok _ _ _ _ _ Hi).
  rewrite (bind_ok _ _ _ _ _ (f_read_nat _ _)). cbn [fileobj objects store].
  rewrite take_app_length, drop_app_length, utf8_decode_ascii by done.
  reflexivity.
Qed.

End RoundTrips.

(** ** [read_long_array] *)

Section LongArray.

Context (h : host) (o : options).

Lemma read_long_enough r :
  (long_size h o <= length (fileobj r))%nat ->
  read_long h o r =
  Ok (le_signed (take (long_size h o) (fileobj r)),
      mkT7Reader (drop (long_size h o) (fileobj r)) (objects r) (store r)).
Proof.
  unfold read_long, long_size.
  destruct (force_8bytes_long o); intros Hl; by rewrite _read_enough.
Qed.

Lemma read_long_short r :
  (length (fileobj r) < long_size h o)%nat ->
  read_long h o r = Raise StructError.
Proof.
  unfold read_long, long_size.
  destruct (force_8bytes_long o); intros Hl; by rewrite _read_short.
Qed.

(** The loop of the 8-byte path, on any loop list of [n] elements. *)
Lemma read_long_loop (l : list Z) acc r :
  (length l * long_size h o <= length (fileobj r))%nat ->
  for_in l (fun _ lst => let* x := read_long h o in ret (lst ++ [x])) acc r =
  Ok (acc ++ map le_signed
            (reshape (replicate (length l) (long_size h o))
                     (take (length l * long_size h o) (fileobj r))),
      mkT7Reader (drop (length l * long_size h o) (fileobj r))
                 (objects r) (store r)).
Proof.
  revert acc r. induction l as [|i l IH]; intros acc r Hl.
  - simpl. rewrite app_nil_r, drop_0. by destruct r.
  - cbn [for_in length]. cbn [length] in Hl.
    unfold bind at 1.
    rewrite (bind_ok _ _ _ _ _ (read_long_enough r ltac:(lia))).
    unfold ret at 1. rewrite IH by (simpl; rewrite length_drop; lia).
    cbn [fileobj objects store replicate reshape map].
    rewrite drop_drop, <- app_assoc. cbn [app].
    rewrite take_take, Nat.min_l by lia.
    rewrite (take_drop_commute _ (length l * long_size h o)).
    replace (S (length l) * long_size h o)%nat
      with (long_size h o + length l * long_size h o)%nat by lia.
    reflexivity.
Qed.

Lemma read_long_loop_short (l : list Z) acc r :
  (length (fileobj r) < length l * long_size h o)%nat ->
  for_in l (fun _ lst => let* x := read_long h o in ret (lst ++ [x])) acc r =
  Raise StructError.
Proof.
  revert acc r. induction l as [|i l IH]; intros acc r Hl.
  - simpl in Hl. lia.
  - cbn [for_in]. unfold bind at 1.
    destruct (Nat.le_gt_cases (long_size h o) (length (fileobj r))) as [He|Hs].
    + rewrite (bind_ok _ _ _ _ _ (read_long_enough r He)).
      unfold ret at 1. apply IH. simpl in *. rewrite length_drop. lia.
    + by rewrite (bind_raise _ _ _ _ (read_long_short r Hs)).
Qed.

(** X4. [read_long_array(n)] with enough bytes: in both modes it returns [n]
    longs, decoded from consecutive groups of bytes of the width of
    [read_long], and consumes exactly these bytes. *)
Theorem read_long_array_enough n r :
  0 <= n ->
  (Z.to_nat n * long_size h o <= length (fileobj r))%nat ->
  read_long_array h o n r =
  Ok (map le_signed
          (reshape (replicate (Z.to_nat n) (long_size h o))
                   (take (Z.to_nat n * long_size h o) (fileobj r))),
      mkT7Reader (drop (Z.to_nat n * long_size h o) (fileobj r))
                 (objects r) (store r)).
Proof.
  intros Hn Hl. unfold read_long_array.
  destruct (force_8bytes_long o) eqn:Hf.
  - assert (length (range n) = Z.to_nat n) as Hr
        by (unfold range; apply length_seqZ).
    rewrite read_long_loop by (rewrite Hr; exact Hl).
    by rewrite Hr.
  - unfold array_fromfile, long_size in *. rewrite Hf in *.
    set (w := long_bytes (sizeof_long h)) in *.
    assert (0 < w)%nat by (unfold w; destruct (sizeof_long h); simpl; lia).
    destruct (Z.ltb_spec n 0); [lia|].
    assert (n * Z.of_nat w = Z.of_nat (Z.to_nat n * w)) as -> by lia.
    rewrite (bind_ok _ _ _ _ _ (f_read_nat _ r)).
    rewrite length_take, Nat.min_l by lia.
    assert (Z.of_nat (Z.to_nat n * w) mod Z.of_nat w = 0) as ->.
    { rewrite Nat2Z.inj_mul. apply Z.mod_mul. lia. }
    rewrite !Z.eqb_refl. reflexivity.
Qed.

Lemma range_nonpos n : n <= 0 -> range n = [].
Proof. intros Hn. unfold range, seqZ. by rewrite Z2Nat.nonpos by lia. Qed.

Lemma array_fromfile_negative n r :
  n < 0 -> array_fromfile h n r = Raise ValueError.
Proof. intros Hn. unfold array_fromfile. by destruct (Z.ltb_spec n 0); [|lia]. Qed.

(** X5. A negative count: the 8-byte path loops over an empty range and
    returns the empty list, the [array] path raises [ValueError]. *)
Theorem read_long_array_negative n r :
  n < 0 ->
  read_long_array h o n r =
  if force_8bytes_long o then Ok ([], r) else Raise ValueError.
Proof.
  intros Hn. unfold read_long_array. destruct (force_8bytes_long o).
  - by rewrite range_nonpos by lia.
  - by apply array_fromfile_negative.
Qed.

(** X6. Fewer bytes than [n] longs: both paths raise, the 8-byte path
    [struct.error] from the first [read_long] that falls short, the
    [array] path [ValueError] when the bytes left are no whole number of
    items and [EOFError] otherwise; no shorter list is returned. *)
Theorem read_long_array_truncated n r :
  0 <= n ->
  (length (fileobj r) < Z.to_nat n * long_size h o)%nat ->
  read_long_array h o n r =
  Raise (if force_8bytes_long o then StructError
         else if Z.of_nat (length (fileobj r)) mod Z.of_nat (long_size h o) =? 0
              then EOFError else ValueError).
Proof.
  intros Hn Hl. unfold read_long_array.
  destruct (force_8bytes_long o) eqn:Hf.
  - apply read_long_loop_short. unfold range. by rewrite length_seqZ.
  - unfold array_fromfile, long_size in *. rewrite Hf in *.
    set (w := long_bytes (sizeof_long h)) in *.
    destruct (Z.ltb_spec n 0); [lia|].
    assert (n * Z.of_nat w = Z.of_nat (Z.to_nat n * w)) as -> by lia.
    rewrite (bind_ok _ _ _ _ _ (f_read_nat _ r)).
    rewrite take_ge by lia.
    destruct (Z.of_nat (length (fileobj r)) mod Z.of_nat w =? 0);
      simpl negb; cbv iota; [|done].
    destruct (Z.eqb_spec (Z.of_nat (length (fileobj r)))
                         (Z.of_nat (Z.to_nat n * w))); [lia | done].
Qed.

End LongArray.

(** ** The dispatch of [read_obj] *)

Lemma wp_any {A} (m : M A) r : wp true m (fun _ _ => True) r.
Proof. unfold wp. by destruct (m r) as [[]| |]. Qed.

Section Dispatch.

Context (h : host) (o : options).

(** X7. A discriminant outside 0..8 raises [T7ReaderException("unknown
    object")]; nothing is returned. *)
Theorem read_obj_unknown_tag fuel r typeidx r1 :
  read_int h r = Ok (typeidx, r1) ->
  typeidx < 0 \/ 8 < typeidx ->
  read_obj h o (S fuel) r = Raise (T7ReaderException UnknownObject).
Proof.
  intros E Ht. rewrite read_obj_S. unfold read_obj_body.
  rewrite (bind_ok _ _ _ _ _ E).
  unfold is_indexed_type, TYPE_NIL, TYPE_NUMBER, TYPE_BOOLEAN, TYPE_STRING,
    TYPE_TABLE, TYPE_TORCH, TYPE_FUNCTION, TYPE_RECUR_FUNCTION,
    LEGACY_TYPE_RECUR_FUNCTION.
  repeat (match goal with
          | |- context [?a =? ?b] =>
              destruct (Z.eqb_spec a b); [lia|]
          end).
  reflexivity.
Qed.

Lemma wp_read_string_reads b r :
  wp b (read_string h) (fun _ r' => exists bs, reads bs r r') r.
Proof.
  unfold read_string.
  eapply wp_bind'; [apply wp_read_int|]. intros size r1 (bs1 & H1 & _).
  eapply wp_bind'; [apply wp_f_read|]. intros bs r2 H2.
  destruct (utf8_decode bs); [|apply wp_raise].
  apply wp_ret. cbv beta in *. eexists. by eapply reads_trans.
Qed.

(** X8. Nil, numbers, booleans and strings are read by value: reading one
    returns no reference, registers nothing in [self.objects] and
    allocates nothing. *)
Theorem read_obj_inline_by_value fuel r typeidx r1 v r' :
  read_int h r = Ok (typeidx, r1) ->
  typeidx = TYPE_NIL \/ typeidx = TYPE_NUMBER
  \/ typeidx = TYPE_BOOLEAN \/ typeidx = TYPE_STRING ->
  read_obj h o (S fuel) r = Ok (v, r') ->
  (forall a, v <> VRef a) /\ objects r' = objects r /\ store r' = store r.
Proof.
  intros E Ht. rewrite read_obj_S. unfold read_obj_body.
  rewrite (bind_ok _ _ _ _ _ E).
  apply read_int_ok in E as [(_ & O1 & S1) _]. rewrite <- O1, <- S1.
  intros Ev. revert Ev.
  apply (wp_ok true _
           (fun v r' => (forall a, v <> VRef a)
                        /\ objects r' = objects r1 /\ store r' = store r1)).
  destruct Ht as [-> | [-> | [-> | ->]]].
  - by apply wp_ret.
  - change (TYPE_NUMBER =? TYPE_NIL) with false.
    change (TYPE_NUMBER =? TYPE_NUMBER) with true. cbv iota.
    unfold read_double. apply wp_bind.
    eapply wp_bind'; [apply (wp_read h true Fmt_d)|].
    intros bits r2 (bs & (_ & O2 & S2) & _). apply wp_ret.
    destruct (_ && _); [|by apply wp_ret].
    eapply wp_bind'.
    { apply wp_lift with (Q := fun _ r' => r' = r2);
        [apply int_of_float_total | done]. }
    intros i r3 ->. by apply wp_ret.
  - change (TYPE_BOOLEAN =? TYPE_NIL) with false.
    change (TYPE_BOOLEAN =? TYPE_NUMBER) with false.
    change (TYPE_BOOLEAN =? TYPE_BOOLEAN) with true. cbv iota.
    unfold read_boolean. apply wp_bind.
    eapply wp_bind'; [apply (wp_read_int h true)|].
    intros i r2 (bs & (_ & O2 & S2) & _). apply wp_ret. by apply wp_ret.
  - change (TYPE_STRING =? TYPE_NIL) with false.
    change (TYPE_STRING =? TYPE_NUMBER) with false.
    change (TYPE_STRING =? TYPE_BOOLEAN) with false.
    change (TYPE_STRING =? TYPE_STRING) with true. cbv iota.
    eapply wp_bind'; [apply (wp_read_string_reads true)|].
    intros s r2 (bs & (_ & O2 & S2)). by apply wp_ret.
Qed.

(** X9. Every [read_obj] that returns has consumed at least the four bytes
    of a discriminant, and has left every object that existed before the
    call as it was. *)
Theorem read_obj_consumes_and_preserves fuel r v r' :
  read_obj h o fuel r = Ok (v, r') ->
  (length (fileobj r') + 4 <= length (fileobj r))%nat
  /\ forall a ob, store r !! a = Some ob -> store r' !! a = Some ob.
Proof.
  intros E. apply read_obj_advanced in E as [L P]. split; [done|].
  intros a ob Ha. by eapply prefix_lookup_Some.
Qed.

(** X10. [load] ends on every file: the nesting of a stream is bounded by its
    length, and the recursion of [read_obj] with it. *)
Theorem load_terminates contents : load h o contents <> OutOfFuel.
Proof. unfold load. apply read_obj_fuel_enough. simpl. lia. Qed.

Lemma registers_last index :
  forall obj r,
    wp true (let* _ := objects_set index obj in ret obj)
       (fun v r' => objects r' !! index = Some v) r.
Proof. intros obj r. unfold wp, bind, objects_set, ret. simpl. apply lookup_insert_eq. Qed.

Lemma wp_read_function_registers index rec r :
  wp true (read_function h index rec)
     (fun v r' => objects r' !! index = Some v) r.
Proof.
  unfold read_function.
  do 4 (eapply wp_bind'; [apply wp_any|]; intros ? ? _).
  apply registers_last.
Qed.

Lemma wp_read_torch_registers index rec r :
  wp true (read_torch h o index rec)
     (fun v r' => objects r' !! index = Some v) r.
Proof.
  unfold read_torch.
  eapply wp_bind'; [apply wp_any|]. intros [version className] r1 _.
  eapply wp_bind'; [apply wp_any|]. intros obj r2 _.
  apply registers_last.
Qed.

Lemma wp_read_table_registers index rec r :
  wp true (read_table h o index rec)
     (fun v r' => objects r' !! index = Some v) r.
Proof.
  unfold read_table.
  do 2 (eapply wp_bind'; [apply wp_any|]; intros ? ? _).
  eapply wp_bind'; [apply wp_any|]. intros [key_sum keys_natural] r1 _.
  eapply wp_bind'; [apply wp_any|]. intros obj r2 _.
  apply registers_last.
Qed.

(** X11. After a table, a class instance or a function was read, its index
    maps to the value that was returned; a reference to that index that
    follows in the stream reads back this very value. *)
Theorem read_obj_then_reference fuel fuel' r typeidx r1 index r2 v r'
        typeidx' ra rb :
  read_int h r = Ok (typeidx, r1) ->
  is_indexed_type typeidx = true ->
  read_int h r1 = Ok (index, r2) ->
  read_obj h o (S fuel) r = Ok (v, r') ->
  read_int h r' = Ok (typeidx', ra) ->
  is_indexed_type typeidx' = true ->
  read_int h ra = Ok (index, rb) ->
  objects r' !! index = Some v
  /\ read_obj h o (S fuel') r' = Ok (v, rb).
Proof.
  intros E1 Hi E2 Ev Ea Hi' Eb.
  assert (objects r' !! index = Some v) as Hreg.
  { revert Ev. rewrite read_obj_S.
    destruct (objects r2 !! index) as [obj|] eqn:El.
    - rewrite (read_obj_body_loaded h o _ _ _ _ _ _ _ E1 Hi E2 El).
      by intros [= <- <-].
    - rewrite (read_obj_body_new h o _ _ _ _ _ _ E1 Hi E2 El).
      apply (wp_ok true _ (fun v r' => objects r' !! index = Some v)).
      destruct (is_function_type typeidx);
        [apply wp_read_function_registers|].
      destruct (typeidx =? TYPE_TORCH);
        [apply wp_read_torch_registers | apply wp_read_table_registers]. }
  split; [done|].
  rewrite read_obj_S. eapply read_obj_body_loaded; eauto.
  destruct (read_int_same h _ _ _ Ea) as (_ & _ & Oa & _).
  destruct (read_int_same h _ _ _ Eb) as (_ & _ & Ob & _).
  congruence.
Qed.

End Dispatch.

(** ** Tables and their keys *)

Lemma hashable_unhashable fuel s a :
  (exists l, s !! a = Some (OList l)) \/ (exists x, s !! a = Some (ONdarray x)) ->
  hashable fuel s (VRef a) = false.
Proof. intros [[l Hl]|[x Hx]]; destruct fuel; simpl; by rewrite ?Hl, ?Hx. Qed.

Lemma dict_setitem_unhashable a d k v r :
  store r !! a = Some (ODict d) ->
  hashable (length (store r)) (store r) k = false ->
  dict_setitem (VRef a) k v r = Raise TypeError.
Proof. unfold dict_setitem. by intros -> ->. Qed.

Lemma heuristic_fold_off (o : options) (kvs : list (value * value)) acc :
  use_list_heuristic o = false ->
  fold_left (fun acc kv => heuristic_step o (fst kv) acc) kvs acc = acc.
Proof.
  intros Hu. induction kvs as [|[k v] kvs IH]; [done|].
  simpl. unfold heuristic_step at 2. destruct acc as [ks kn].
  by rewrite Hu, IH.
Qed.

Section Tables.

Context (h : host) (o : options).

(** X12. With [use_list_heuristic] off no table is converted: whatever its
    keys, the result of reading a table is the dict its pairs were stored
    into. *)
Theorem read_obj_table_heuristic_off fuel r0 ra index r size r1 kvs r2 :
  use_list_heuristic o = false ->
  read_int h r0 = Ok (TYPE_TABLE, ra) ->
  read_int h ra = Ok (index, r) ->
  objects r0 !! index = None ->
  read_int h r = Ok (size, r1) ->
  table_run (read_obj h o fuel) (VRef (length (store r1)))
            (mkT7Reader (fileobj r1) (objects r1) (store r1 ++ [ODict []]))
            kvs r2 ->
  length kvs = Z.to_nat size ->
  read_obj h o (S fuel) r0 =
  Ok (VRef (length (store r1)),
      mkT7Reader (fileobj r2)
                 (<[index := VRef (length (store r1))]> (objects r2))
                 (store r2))
  /\ exists d, store r2 !! length (store r1) = Some (ODict d).
Proof.
  intros Hu E0 E1 Hn Es Hrun Hlen.
  rewrite (read_obj_table_new h o fuel _ _ _ _ E0 E1 Hn).
  assert (length (range size) = length kvs) as Hrange
      by (unfold range; by rewrite length_seqZ).
  split.
  - unfold read_table.
    rewrite (bind_ok _ _ _ _ _ Es), (bind_ok _ _ _ _ _ (alloc_ok _ r1)).
    rewrite (bind_ok _ _ _ _ _
               (for_in_table_run o _ _ _ _ _ Hrun (range size) (0, true) Hrange)).
    rewrite heuristic_fold_off by done. cbv iota. by rewrite Hu.
  - apply (table_run_dict _ _ _ _ _ Hrun).
    exists []. simpl. by apply list_lookup_middle.
Qed.

(** X13. A table cannot have a list or an array for a key: when the first key
    read is one (an empty or list-like table that the heuristic turned
    into a list, a tensor, a storage), storing the pair raises
    [TypeError] and the read fails. *)
Theorem read_obj_table_unhashable_key fuel r0 ra index r size r1 a r2 v r3 :
  read_int h r0 = Ok (TYPE_TABLE, ra) ->
  read_int h ra = Ok (index, r) ->
  objects r0 !! index = None ->
  read_int h r = Ok (size, r1) ->
  0 < size ->
  read_obj h o fuel
           (mkT7Reader (fileobj r1) (objects r1) (store r1 ++ [ODict []]))
  = Ok (VRef a, r2) ->
  read_obj h o fuel r2 = Ok (v, r3) ->
  (exists l, store r3 !! a = Some (OList l))
  \/ (exists x, store r3 !! a = Some (ONdarray x)) ->
  read_obj h o (S fuel) r0 = Raise TypeError.
Proof.
  intros E0 E1 Hn Es Hs Ek Ev Hk.
  rewrite (read_obj_table_new h o fuel _ _ _ _ E0 E1 Hn).
  unfold read_table.
  rewrite (bind_ok _ _ _ _ _ Es), (bind_ok _ _ _ _ _ (alloc_ok _ r1)).
  unfold range. rewrite seqZ_cons by done.
  apply bind_raise. cbn [for_in]. apply bind_raise.
  rewrite (bind_ok _ _ _ _ _ Ek), (bind_ok _ _ _ _ _ Ev).
  apply bind_raise.
  apply read_obj_advanced in Ek as [_ P1].
  apply read_obj_advanced in Ev as [_ P2].
  assert (store r3 !! length (store r1) = Some (ODict [])) as Hd.
  { eapply prefix_lookup_Some; [|exact P2].
    eapply prefix_lookup_Some; [|exact P1].
    simpl. by apply list_lookup_middle. }
  apply (dict_setitem_unhashable _ []); [exact Hd|].
  by apply hashable_unhashable.
Qed.

(** X14. With [use_int_heuristic] off, what [load] returns is no [int]
    proper, that is no value of the type [int] itself: no number is
    narrowed. It can still be a [bool], which Python counts among the
    ints. And [self.objects] holds references only. *)
Theorem load_no_int_heuristic contents v r' :
  use_int_heuristic o = false ->
  load h o contents = Ok (v, r') ->
  not_int v /\ refs_only (objects r').
Proof.
  intros Hno E. unfold load in E.
  refine (wp_ok _ _ _ _ _ _ (clean_read_obj h o _ Hno _ _) E).
  apply map_Forall_empty.
Qed.

End Tables.

(** ** Keys by identity *)

Lemma float_eqb_refl x : x <> S754_nan -> float_eqb x x = true.
Proof.
  destruct x as [s|s| |s m e]; simpl; try done.
  - intros _. by destruct s.
  - intros _. rewrite Z.min_id, Z.sub_diag, Z.eqb_refl. by destruct s.
Qed.

Lemma key_eqb_refl fuel s k :
  k <> VFloat S754_nan -> key_eqb fuel s k k = true.
Proof.
  destruct k as [|z|x|b|t|a]; destruct fuel; simpl; intros Hk;
    rewrite ?Z.eqb_refl, ?Nat.eqb_refl; try done;
    try (apply float_eqb_refl; congruence);
    try (by apply bool_decide_eq_true_2).
Qed.

Lemma key_eqb_insert_dict fuel s a d d' x y :
  s !! a = Some (ODict d) ->
  key_eqb fuel (<[a := ODict d']> s) x y = key_eqb fuel s x y.
Proof.
  intros Ha.
  assert (a < length s)%nat as Hlt by by eapply lookup_lt_Some.
  revert x y. induction fuel as [|fuel IH]; intros x y.
  - by destruct x, y.
  - destruct x as [| | | | |p], y as [| | | | |q]; try done.
    cbn [key_eqb]. unfold addr in *. destruct (p =? q)%nat; [done|].
    destruct (decide (a = p)) as [<-|Hp].
    { by rewrite list_lookup_insert_eq, Ha by done. }
    rewrite (list_lookup_insert_ne s a p) by done.
    destruct (decide (a = q)) as [<-|Hq].
    { rewrite list_lookup_insert_eq, Ha by done.
      by destruct (s !! p) as [[]|]. }
    rewrite (list_lookup_insert_ne s a q) by done.
    destruct (s !! p) as [[]|]; try done.
    destruct (s !! q) as [[]|]; try done. by rewrite IH.
Qed.

Lemma hashable_insert_dict fuel s a d d' k :
  s !! a = Some (ODict d) ->
  hashable fuel (<[a := ODict d']> s) k = hashable fuel s k.
Proof.
  intros Ha.
  assert (a < length s)%nat as Hlt by by eapply lookup_lt_Some.
  revert k. induction fuel as [|fuel IH]; intros k;
    destruct k as [| | | | |p]; try done; simpl; unfold addr in *;
    (destruct (decide (a = p)) as [<-|Hne];
     [by rewrite list_lookup_insert_eq, Ha by done|]);
    rewrite list_lookup_insert_ne by done;
    destruct (s !! p) as [[]|]; try done; apply IH.
Qed.

Lemma dict_get_ext eqb eqb' d k :
  (forall x, eqb x k = eqb' x k) ->
  dict_get eqb d k = dict_get eqb' d k.
Proof.
  intros He. induction d as [|[k' v'] d IH]; [done|].
  simpl. by rewrite He, IH.
Qed.

Lemma dict_get_set_same eqb d k v :
  eqb k k = true -> dict_get eqb (dict_set eqb d k v) k = Some v.
Proof.
  intros Hk. induction d as [|[k' v'] d IH]; simpl.
  - by rewrite Hk.
  - destruct (eqb k' k) eqn:E; simpl; by rewrite E.
Qed.

Lemma dict_get_set_other eqb d k v k' :
  eqb k k' = false -> dict_get eqb d k' = None ->
  dict_get eqb (dict_set eqb d k v) k' = None.
Proof.
  intros Hk. induction d as [|[k0 v0] d IH]; simpl.
  - by rewrite Hk.
  - destruct (eqb k0 k') eqn:E'; [done|]. intros Hd.
    destruct (eqb k0 k); simpl; rewrite E'; [done | by apply IH].
Qed.

Lemma dict_getitem_inv obj k r e :
  dict_getitem obj k r = Raise e -> e = KeyError ->
  exists a d,
    obj = VRef a /\ store r !! a = Some (ODict d)
    /\ hashable (length (store r)) (store r) k = true
    /\ dict_get (key_eqb (length (store r)) (store r)) d k = None.
Proof.
  unfold dict_getitem, bind, dict_items, get_store.
  destruct obj as [| | | | |a]; try (by intros [= <-]).
  destruct (store r !! a) as [[d| | | |]|] eqn:Ha; try (by intros [= <-]).
  destruct (hashable _ _ k) eqn:Hh; [|by intros [= <-]].
  destruct (dict_get _ d k) eqn:Hg; [done|]. intros _ _.
  exists a, d. by rewrite Ha.
Qed.

Lemma dict_getitem_found a d k v r :
  store r !! a = Some (ODict d) ->
  hashable (length (store r)) (store r) k = true ->
  dict_get (key_eqb (length (store r)) (store r)) d k = Some v ->
  dict_getitem (VRef a) k r = Ok (v, r).
Proof.
  unfold dict_getitem, bind, dict_items, get_store. by intros -> -> ->.
Qed.

Lemma dict_getitem_missing a d k r :
  store r !! a = Some (ODict d) ->
  hashable (length (store r)) (store r) k = true ->
  dict_get (key_eqb (length (store r)) (store r)) d k = None ->
  dict_getitem (VRef a) k r = Raise KeyError.
Proof.
  unfold dict_getitem, bind, dict_items, get_store. by intros -> -> ->.
Qed.

(** What was stored under a key is what the key gives back: after
    [obj[k] = v], [obj[k]] is [v], for every key but a NaN (which equals
    nothing, itself included). *)
Theorem dict_setitem_getitem obj k v r r' :
  dict_setitem obj k v r = Ok (tt, r') ->
  k <> VFloat S754_nan ->
  dict_getitem obj k r' = Ok (v, r').
Proof.
  intros (a & d & -> & Ha & Hh & ->)%dict_setitem_inv Hk.
  assert (a < length (store r))%nat as Hlt by by eapply lookup_lt_Some.
  eapply dict_getitem_found; simpl.
  - by apply list_lookup_insert_eq.
  - by rewrite length_insert, (hashable_insert_dict _ _ _ d).
  - rewrite length_insert.
    rewrite (dict_get_ext _ (key_eqb (length (store r)) (store r)))
      by (intros x; by apply (key_eqb_insert_dict _ _ _ d)).
    apply dict_get_set_same. by apply key_eqb_refl.
Qed.

(** X15. Tables are keys by identity: storing a value under the table at [p]
    does not make the table at [q], another object, a key, whatever the
    two tables hold. *)
Theorem dict_table_keys_by_identity obj p q dq v r r' :
  store r !! q = Some (ODict dq) ->
  p <> q ->
  dict_getitem obj (VRef q) r = Raise KeyError ->
  dict_setitem obj (VRef p) v r = Ok (tt, r') ->
  dict_getitem obj (VRef q) r' = Raise KeyError.
Proof.
  intros Hq Hne Hmiss Hset.
  apply dict_setitem_inv in Hset as (a & d & -> & Ha & Hh & ->).
  apply dict_getitem_inv in Hmiss as (a' & d' & [= <-] & Ha' & Hhq & Hnone);
    [|done].
  assert (d' = d) as -> by congruence.
  assert (a < length (store r))%nat as Hlt by by eapply lookup_lt_Some.
  eapply dict_getitem_missing; simpl.
  - by apply list_lookup_insert_eq.
  - by rewrite length_insert, (hashable_insert_dict _ _ _ d).
  - rewrite length_insert.
    rewrite (dict_get_ext _ (key_eqb (length (store r)) (store r)))
      by (intros x; by apply (key_eqb_insert_dict _ _ _ d)).
    apply dict_get_set_other; [|done].
    destruct (length (store r)) as [|n]; [lia|]. simpl.
    destruct (Nat.eqb_spec p q); [done|]. unfold addr in *. rewrite Hq.
    by destruct (store r !! p) as [[]|].
Qed.

(** ** Class instances, functions and storages *)

Lemma py_get_dict fuel s a d k :
  s !! a = Some (ODict d) ->
  py_get fuel s (VRef a) k =
  if hashable (length s) s k then
    Ok (default VNone (dict_get (key_eqb (length s) s) d k))
  else Raise TypeError.
Proof. intros Ha. destruct fuel; simpl; unfold addr in *; by rewrite Ha. Qed.

Lemma py_get_list fuel s a l k :
  s !! a = Some (OList l) -> py_get fuel s (VRef a) k = Raise AttributeError.
Proof. intros Ha. destruct fuel; simpl; unfold addr in *; by rewrite Ha. Qed.

(** X16. What a trivial class reader returns, and what its accessors give: the
    [TorchObject] knows its class name; over a dict, [t[k]] of a key that
    is not there is [None], not an error; over a table that the list
    heuristic turned into a list, every [t[k]] raises [AttributeError],
    a list having no [get]. *)
Theorem trivial_class_reader_accessors typename rec version r x r1 :
  rec r = Ok (x, r1) ->
  let t := VRef (length (store r1)) in
  let s2 := store r1 ++ [OTorchObject typename x] in
  trivial_class_reader typename rec version r =
  Ok (t, mkT7Reader (fileobj r1) (objects r1) s2)
  /\ torch_typename s2 t = Ok typename
  /\ (forall a d k,
        x = VRef a -> store r1 !! a = Some (ODict d) ->
        hashable (length s2) s2 k = true ->
        dict_get (key_eqb (length s2) s2) d k = None ->
        TorchObject_getitem s2 t k = Ok VNone)
  /\ (forall a l k,
        x = VRef a -> store r1 !! a = Some (OList l) ->
        TorchObject_getitem s2 t k = Raise AttributeError).
Proof.
  intros E t s2.
  assert (s2 !! length (store r1) = Some (OTorchObject typename x)) as Ht
      by (by apply list_lookup_middle).
  split; [|split; [|split]].
  - unfold trivial_class_reader. by rewrite (bind_ok _ _ _ _ _ E).
  - unfold torch_typename, t. unfold addr in *. by rewrite Ht.
  - intros a d k -> Ha Hh Hg.
    unfold TorchObject_getitem, t. unfold addr in *. rewrite Ht.
    rewrite (py_get_dict _ _ _ d) by (by apply lookup_app_l_Some).
    by rewrite Hh, Hg.
  - intros a l k -> Ha.
    unfold TorchObject_getitem, t. unfold addr in *. rewrite Ht.
    by rewrite (py_get_list _ _ _ l) by (by apply lookup_app_l_Some).
Qed.

Section Branches.

Context (h : host) (o : options).

(** X17. The three function tags (6, and the two tags of recursive functions,
    7 and 8) are read alike: a [LuaFunction] of the announced size, the
    bytes read for it and the upvalues, allocated anew and registered
    under its index. *)
Theorem read_obj_function fuel r typeidx r1 index r2 size r3 dumped r4 up r5 :
  read_int h r = Ok (typeidx, r1) ->
  is_function_type typeidx = true ->
  read_int h r1 = Ok (index, r2) ->
  objects r !! index = None ->
  read_int h r2 = Ok (size, r3) ->
  f_read size r3 = Ok (dumped, r4) ->
  read_obj h o fuel r4 = Ok (up, r5) ->
  read_obj h o (S fuel) r =
  Ok (VRef (length (store r5)),
      mkT7Reader (fileobj r5)
                 (<[index := VRef (length (store r5))]> (objects r5))
                 (store r5 ++ [OLuaFunction size dumped up])).
Proof.
  intros E1 Hf E2 Hn E3 E4 E5.
  destruct (read_int_same h _ _ _ E1) as (_ & _ & O1 & _).
  destruct (read_int_same h _ _ _ E2) as (_ & _ & O2 & _).
  assert (objects r2 !! index = None) as Hn2 by congruence.
  assert (is_indexed_type typeidx = true) as Hi.
  { unfold is_function_type in Hf. unfold is_indexed_type.
    destruct (typeidx =? TYPE_TABLE), (typeidx =? TYPE_TORCH); try done. }
  rewrite read_obj_S, (read_obj_body_new h o _ _ _ _ _ _ E1 Hi E2 Hn2), Hf.
  unfold read_function.
  rewrite (bind_ok _ _ _ _ _ E3), (bind_ok _ _ _ _ _ E4),
    (bind_ok _ _ _ _ _ E5).
  reflexivity.
Qed.

(** X18. A storage whose elements are all there: [read_storage] consumes the
    count and exactly [count * itemsize] bytes, and returns a new flat
    array of [count] elements that owns these bytes. *)
Theorem read_storage_exact dt rec version r count r1 :
  read_long h o r = Ok (count, r1) ->
  0 <= count ->
  count * itemsize dt <= Z.of_nat (length (fileobj r1)) ->
  let nbytes := Z.to_nat (count * itemsize dt) in
  let x := NdArray dt None (take nbytes (fileobj r1)) 0 [count] [itemsize dt] in
  read_storage h o dt rec version r =
  Ok (VRef (length (store r1)),
      mkT7Reader (drop nbytes (fileobj r1)) (objects r1)
                 (store r1 ++ [ONdarray x]))
  /\ is_storage x count
  /\ length (nd_data x) = nbytes.
Proof.
  intros E Hc Hl nbytes x.
  assert (0 < itemsize dt) as Hi by (by destruct dt).
  split; [|split].
  - unfold read_storage. rewrite (bind_ok _ _ _ _ _ E).
    unfold np_fromfile.
    destruct (Z.ltb_spec count 0); [lia|].
    rewrite Z.min_l; [reflexivity|].
    apply Z.div_le_lower_bound; lia.
  - by repeat split.
  - simpl. rewrite length_take. unfold nbytes. lia.
Qed.

(** X19. A tensor whose header announces a negative number of dimensions: on
    the [array] path the first [read_long_array] raises [ValueError]; on
    the 8-byte path both arrays are empty, the offset and the storage are
    still read, and the tensor is the empty array, whatever the storage
    is. *)
Theorem read_tensor_generic_negative_ndim dt rec version r ndim r1 :
  read_int h r = Ok (ndim, r1) ->
  ndim < 0 ->
  (force_8bytes_long o = false ->
   read_tensor_generic h o dt rec version r = Raise ValueError)
  /\ (force_8bytes_long o = true ->
      forall l r4 storage r5,
        read_long h o r1 = Ok (l, r4) ->
        rec r4 = Ok (storage, r5) ->
        read_tensor_generic h o dt rec version r =
        Ok (VRef (length (store r5)),
            mkT7Reader (fileobj r5) (objects r5)
                       (store r5 ++ [ONdarray (empty_array dt)]))).
Proof.
  intros E Hn. unfold read_tensor_generic. rewrite (bind_ok _ _ _ _ _ E).
  unfold read_long_array. split; intros Hf; rewrite Hf.
  - unfold bind at 1. by rewrite array_fromfile_negative.
  - intros l r4 storage r5 El Es.
    rewrite range_nonpos by lia. cbn [for_in]. unfold bind at 1, ret at 1.
    unfold bind at 1, ret at 1.
    rewrite (bind_ok _ _ _ _ _ El), (bind_ok _ _ _ _ _ Es).
    by rewrite !orb_true_r.
Qed.

(** X20. A string whose announced length is negative is not refused as such:
    the length -1 makes [f.read] return all that is left of the file, which
    becomes the string; a length below -1 raises [ValueError]. *)
Theorem read_string_negative_size r size r1 :
  read_int h r = Ok (size, r1) ->
  size < 0 ->
  read_string h r =
  if size =? -1 then
    match utf8_decode (fileobj r1) with
    | Some s => Ok (s, mkT7Reader [] (objects r1) (store r1))
    | None => Raise UnicodeDecodeError
    end
  else Raise ValueError.
Proof.
  intros E Hs. unfold read_string. rewrite (bind_ok _ _ _ _ _ E).
  unfold bind at 1, f_read.
  destruct (Z.ltb_spec size (-1)), (Z.eqb_spec size (-1)); try lia.
  - reflexivity.
  - by destruct (utf8_decode _).
Qed.

(** X21. A table whose announced size is zero or negative reads no pair: the
    result is the empty list with the list heuristic and the empty dict
    without it, registered under the index, and the stream stays right
    after the size. *)
Theorem read_table_nonpositive_size index rec r size r1 :
  read_int h r = Ok (size, r1) ->
  size <= 0 ->
  read_table h o index rec r =
  if use_list_heuristic o then
    Ok (VRef (S (length (store r1))),
        mkT7Reader (fileobj r1)
                   (<[index := VRef (S (length (store r1)))]> (objects r1))
                   (store r1 ++ [ODict []; OList []]))
  else
    Ok (VRef (length (store r1)),
        mkT7Reader (fileobj r1)
                   (<[index := VRef (length (store r1))]> (objects r1))
                   (store r1 ++ [ODict []])).
Proof.
  intros E Hs. unfold read_table. rewrite (bind_ok _ _ _ _ _ E).
  rewrite range_nonpos by done.
  unfold bind at 1, alloc. cbn [for_in].
  unfold bind at 1, ret at 1.
  destruct (use_list_heuristic o).
  - unfold bind at 1. unfold bind at 1, dict_items. cbn [store].
    rewrite list_lookup_middle by done. cbn.
    unfold objects_set, bind, ret, alloc.
    change (Z.of_nat 0 * (Z.of_nat 0 + 1) =? 2 * 0) with true.
    change (range (Z.of_nat 0)) with (@nil Z). cbn [for_in store fileobj objects].
    unfold ret. cbn [store fileobj objects].
    rewrite length_app, <- app_assoc. cbn [length app].
    by replace (length (store r1) + 1)%nat with (S (length (store r1))) by lia.
  - reflexivity.
Qed.

End Branches.

(** ** The registry *)

Lemma fold_lookup_last {V} (l : list (str * V)) (n : str) init rd :
  NoDup l.*1 ->
  fold_left (fun found '(m, x) => if bool_decide (m = n) then Some x else found)
            l init = Some rd
  <-> (n, rd) ∈ l \/ ((n ∉ l.*1) /\ init = Some rd).
Proof.
  revert init. induction l as [|[m x] l IH]; intros init Hnd.
  - simpl. rewrite elem_of_nil. split; [intros ?; right; split; [|done]|tauto].
    apply not_elem_of_nil.
  - rewrite fmap_cons in Hnd. apply NoDup_cons in Hnd as [Hm Hnd].
    cbn [fold_left]. rewrite (IH _ Hnd). rewrite fmap_cons. simpl fst.
    rewrite elem_of_cons, not_elem_of_cons.
    case_bool_decide as Hmn.
    + subst m. split.
      * intros [Hin|[_ [= ->]]]; [|by left; left].
        exfalso. apply Hm. by apply (list_elem_of_fmap_2 fst) in Hin.
      * intros [[[= ->]|Hin]|[[? _] _]]; [right; split; done| |done].
        exfalso. apply Hm. by apply (list_elem_of_fmap_2 fst) in Hin.
    + split.
      * intros [Hin|[Hn Hi]]; [left; by right | right; split; [split|]; done].
      * intros [[[= -> ->]|Hin]|[[_ Hn] Hi]]; [done | by left | by right].
Qed.

Lemma registrations_NoDup : NoDup registrations.*1.
Proof.
  apply (bool_decide_eq_true_1 (NoDup registrations.*1)).
  vm_compute. reflexivity.
Qed.

(** X22. Every class name is registered once, so that no registration
    replaces another: a name resolves to a reader exactly when one of the
    three tables lists it, and then to the reader of that table (with the
    element type the table gives); every other name is unknown. *)
Theorem torch_readers_spec (className : str) (rd : class_reader) :
  torch_readers className = Some rd <->
  (exists n dt, (n, dt) ∈ tensor_classes
                /\ className = str_of_string n /\ rd = TensorReader dt)
  \/ (exists n dt, (n, dt) ∈ storage_classes
                   /\ className = str_of_string n /\ rd = StorageReader dt)
  \/ (exists n, n ∈ trivial_classes
                /\ className = str_of_string n /\ rd = TrivialClassReader).
Proof.
  unfold torch_readers.
  rewrite (fold_lookup_last registrations className None rd registrations_NoDup).
  unfold registrations. rewrite !elem_of_app.
  change (map ?f ?l) with (f <$> l). rewrite !list_elem_of_fmap.
  split.
  - intros [[([n dt] & [= -> ->] & Hin)|[([n dt] & [= -> ->] & Hin)
                                         |(n & [= -> ->] & Hin)]]|[_ [=]]].
    + left. eauto.
    + right. left. eauto.
    + right. right. eauto.
  - intros [(n & dt & Hin & -> & ->)|[(n & dt & Hin & -> & ->)
                                      |(n & Hin & -> & ->)]]; left.
    + left. by exists (n, dt).
    + right. left. by exists (n, dt).
    + right. right. by exists n.
Qed.

(** * The further properties at concrete inputs *)

(** The integer -2, followed by one more byte. *)
Lemma read_int_enc_int_witness :
  read_int linux64 (mkT7Reader (enc_int (-2) ++ [x07]) ∅ []) =
  Ok (-2, mkT7Reader [x07] ∅ []).
Proof.
  apply (read_int_enc_int linux64 (-2) [x07] ∅ []). simpl. lia.
Defined.

(** The long -5 on a host whose [long] has four bytes. *)
Lemma read_long_le_bytes_witness :
  read_long windows default_options
            (mkT7Reader (le_bytes 4 (-5) ++ [x07]) ∅ []) =
  Ok (-5, mkT7Reader [x07] ∅ []).
Proof.
  apply (read_long_le_bytes windows default_options (-5) [x07] ∅ []).
  split; [apply Z.leb_le | apply Z.ltb_lt]; vm_compute; reflexivity.
Defined.

(** The three bytes "a", zero, "b". *)
Lemma read_string_ascii_witness :
  read_string linux64
    (mkT7Reader (enc_int 3 ++ [x61; x00; x62] ++ [x07]) ∅ []) =
  Ok ([97; 0; 98]%N, mkT7Reader [x07] ∅ []).
Proof.
  apply (read_string_ascii linux64 [x61; x00; x62] [x07] ∅ []).
  - repeat constructor.
  - simpl. lia.
Defined.

(** Two longs of four bytes out of nine bytes. *)
Lemma read_long_array_enough_witness :
  read_long_array windows default_options 2
                  (new_reader (le_bytes 4 1 ++ le_bytes 4 (-1) ++ [x07])) =
  Ok ([1; -1], new_reader [x07]).
Proof.
  apply (read_long_array_enough windows default_options 2
           (new_reader (le_bytes 4 1 ++ le_bytes 4 (-1) ++ [x07]))).
  - lia.
  - simpl. lia.
Defined.

Lemma read_long_array_negative_witness :
  read_long_array linux64 default_options (-1) (new_reader [x07]) =
  Raise ValueError.
Proof.
  apply (read_long_array_negative linux64 default_options (-1)
           (new_reader [x07])).
  lia.
Defined.

(** Two longs of eight bytes asked of twelve bytes. *)
Lemma read_long_array_truncated_witness :
  read_long_array linux64 default_options 2
                  (new_reader (le_bytes 8 1 ++ le_bytes 4 2)) =
  Raise ValueError.
Proof.
  apply (read_long_array_truncated linux64 default_options 2
           (new_reader (le_bytes 8 1 ++ le_bytes 4 2))).
  - lia.
  - simpl. lia.
Defined.

Lemma read_obj_unknown_tag_witness :
  read_obj linux64 default_options 1 (new_reader (enc_int 9)) =
  Raise (T7ReaderException UnknownObject).
Proof.
  apply (read_obj_unknown_tag linux64 default_options 0
           (new_reader (enc_int 9)) 9 (new_reader [])).
  - vm_compute. reflexivity.
  - right. lia.
Defined.

Lemma read_obj_inline_by_value_witness :
  (forall a, VInt 4 <> VRef a)
  /\ objects (new_reader []) = objects (new_reader (enc_number bits_4))
  /\ store (new_reader []) = store (new_reader (enc_number bits_4)).
Proof.
  apply (read_obj_inline_by_value linux64 default_options 0
           (new_reader (enc_number bits_4)) TYPE_NUMBER
           (new_reader (le_bytes 8 bits_4)) (VInt 4) (new_reader [])).
  - vm_compute. reflexivity.
  - right. left. reflexivity.
  - vm_compute. reflexivity.
Defined.

Lemma read_obj_consumes_and_preserves_witness :
  (length (fileobj (reader_at [] (<[1%Z := VRef 1%nat]> ∅)
                              [ODict [(VInt 1, str_a)]; OList [str_a]])) + 4
   <= length (fileobj (new_reader table_one)))%nat
  /\ forall a ob,
      store (new_reader table_one) !! a = Some ob ->
      store (reader_at [] (<[1%Z := VRef 1%nat]> ∅)
                       [ODict [(VInt 1, str_a)]; OList [str_a]]) !! a = Some ob.
Proof.
  apply (read_obj_consumes_and_preserves linux64 default_options 2
           (new_reader table_one) (VRef 1%nat)).
  vm_compute. reflexivity.
Defined.

(** The empty table 2 and the reference to it that follows. *)
Lemma read_obj_then_reference_witness :
  let r' := reader_at (enc_int TYPE_TABLE ++ enc_int 2) (<[2%Z := VRef 1%nat]> ∅)
                      [ODict []; OList []] in
  objects r' !! 2 = Some (VRef 1%nat)
  /\ read_obj linux64 default_options 1 r' =
     Ok (VRef 1%nat, reader_at [] (<[2%Z := VRef 1%nat]> ∅) [ODict []; OList []]).
Proof.
  apply (read_obj_then_reference linux64 default_options 0 0
           (new_reader table_then_ref) TYPE_TABLE
           (new_reader (drop 4 table_then_ref)) 2
           (new_reader (drop 8 table_then_ref))
           (VRef 1%nat)
           (reader_at (enc_int TYPE_TABLE ++ enc_int 2) (<[2%Z := VRef 1%nat]> ∅)
                      [ODict []; OList []])
           TYPE_TABLE
           (reader_at (enc_int 2) (<[2%Z := VRef 1%nat]> ∅) [ODict []; OList []])
           (reader_at [] (<[2%Z := VRef 1%nat]> ∅) [ODict []; OList []])).
  - vm_compute. reflexivity.
  - reflexivity.
  - vm_compute. reflexivity.
  - vm_compute. reflexivity.
  - vm_compute. reflexivity.
  - reflexivity.
  - vm_compute. reflexivity.
Defined.

(** The table [{1: "a"}] with the list heuristic off. *)
Lemma read_obj_table_heuristic_off_witness :
  read_obj linux64 no_list_heuristic 2 (new_reader table_one) =
  Ok (VRef 0%nat,
      reader_at [] (<[1%Z := VRef 0%nat]> ∅) [ODict [(VInt 1, str_a)]])
  /\ exists d,
      store (reader_at [] ∅ [ODict [(VInt 1, str_a)]]) !! 0%nat
      = Some (ODict d).
Proof.
  apply (read_obj_table_heuristic_off linux64 no_list_heuristic 1
           (new_reader table_one)
           (new_reader (drop 4 table_one))
           1
           (new_reader (drop 8 table_one))
           1
           (new_reader (drop 12 table_one))
           [(VInt 1, str_a)]
           (reader_at [] ∅ [ODict [(VInt 1, str_a)]])).
  - reflexivity.
  - vm_compute. reflexivity.
  - vm_compute. reflexivity.
  - vm_compute. reflexivity.
  - vm_compute. reflexivity.
  - apply (table_run_cons _ _
             (reader_at (drop 12 table_one) ∅ [ODict []])
             (VInt 1)
             (reader_at (drop 24 table_one) ∅ [ODict []])
             str_a
             (reader_at [] ∅ [ODict []])
             (reader_at [] ∅ [ODict [(VInt 1, str_a)]])).
    + vm_compute. reflexivity.
    + vm_compute. reflexivity.
    + vm_compute. reflexivity.
    + apply table_run_nil.
  - reflexivity.
Defined.

(** The table whose key is an empty table, which the heuristic reads as
    the empty list. *)
Lemma read_obj_table_unhashable_key_witness :
  read_obj linux64 default_options 3 (new_reader table_list_key) =
  Raise TypeError.
Proof.
  apply (read_obj_table_unhashable_key linux64 default_options 2
           (new_reader table_list_key)
           (new_reader (drop 4 table_list_key))
           1
           (new_reader (drop 8 table_list_key))
           1
           (new_reader (drop 12 table_list_key))
           2%nat
           (reader_at (drop 24 table_list_key) (<[2%Z := VRef 2%nat]> ∅)
                      [ODict []; ODict []; OList []])
           str_a
           (reader_at [] (<[2%Z := VRef 2%nat]> ∅) [ODict []; ODict []; OList []])).
  - vm_compute. reflexivity.
  - vm_compute. reflexivity.
  - vm_compute. reflexivity.
  - vm_compute. reflexivity.
  - lia.
  - vm_compute. reflexivity.
  - vm_compute. reflexivity.
  - left. exists []. reflexivity.
Defined.

Lemma load_no_int_heuristic_witness :
  not_int (VFloat (S754_finite false 4503599627370496 (-50)))
  /\ refs_only (objects (new_reader [])).
Proof.
  apply (load_no_int_heuristic linux64 no_int_heuristic
           (enc_number bits_4)
           (VFloat (S754_finite false 4503599627370496 (-50)))
           (new_reader [])).
  - reflexivity.
  - vm_compute. reflexivity.
Defined.

Lemma dict_setitem_getitem_witness :
  dict_getitem (VRef 0%nat) (VInt 1)
               (reader_at [] ∅ [ODict [(VInt 1, str_a)]]) =
  Ok (str_a, reader_at [] ∅ [ODict [(VInt 1, str_a)]]).
Proof.
  apply (dict_setitem_getitem (VRef 0%nat) (VInt 1) str_a
           (reader_at [] ∅ [ODict []])).
  - vm_compute. reflexivity.
  - discriminate.
Defined.

(** Three empty tables: the first one gets the second one for a key; the
    third one is no key of it. *)
Lemma dict_table_keys_by_identity_witness :
  dict_getitem (VRef 0%nat) (VRef 2%nat)
               (reader_at [] ∅ [ODict [(VRef 1%nat, str_a)]; ODict []; ODict []])
  = Raise KeyError.
Proof.
  apply (dict_table_keys_by_identity (VRef 0%nat) 1%nat 2%nat [] str_a
           (reader_at [] ∅ [ODict []; ODict []; ODict []])).
  - reflexivity.
  - lia.
  - vm_compute. reflexivity.
  - vm_compute. reflexivity.
Defined.

(** An [nn.Linear] whose payload is the empty table, read as a list. *)
Lemma trivial_class_reader_accessors_witness :
  let nn_linear := str_of_string "nn.Linear" in
  let s2 := [ODict []; OList []; OTorchObject nn_linear (VRef 1%nat)] in
  trivial_class_reader nn_linear (read_obj linux64 default_options 2)
                       (str_of_string "V 1") (new_reader table_empty) =
  Ok (VRef 2%nat, reader_at [] (<[1%Z := VRef 1%nat]> ∅) s2)
  /\ torch_typename s2 (VRef 2%nat) = Ok nn_linear
  /\ (forall a d k,
        VRef 1%nat = VRef a ->
        [ODict []; OList []] !! a = Some (ODict d) ->
        hashable (length s2) s2 k = true ->
        dict_get (key_eqb (length s2) s2) d k = None ->
        TorchObject_getitem s2 (VRef 2%nat) k = Ok VNone)
  /\ (forall a l k,
        VRef 1%nat = VRef a ->
        [ODict []; OList []] !! a = Some (OList l) ->
        TorchObject_getitem s2 (VRef 2%nat) k = Raise AttributeError).
Proof.
  refine (trivial_class_reader_accessors (str_of_string "nn.Linear")
            (read_obj linux64 default_options 2) (str_of_string "V 1")
            (new_reader table_empty) (VRef 1%nat)
            (reader_at [] (<[1%Z := VRef 1%nat]> ∅) [ODict []; OList []]) _).
  vm_compute. reflexivity.
Defined.

Lemma read_obj_function_witness :
  read_obj linux64 default_options 2 (new_reader function_stream) =
  Ok (VRef 0%nat,
      reader_at [] (<[1%Z := VRef 0%nat]> ∅) [OLuaFunction 2 [x01; x02] VNone]).
Proof.
  apply (read_obj_function linux64 default_options 1
           (new_reader function_stream) TYPE_FUNCTION
           (new_reader (drop 4 function_stream)) 1
           (new_reader (drop 8 function_stream)) 2
           (new_reader (drop 12 function_stream)) [x01; x02]
           (new_reader (drop 14 function_stream)) VNone
           (new_reader [])).
  - vm_compute. reflexivity.
  - reflexivity.
  - vm_compute. reflexivity.
  - vm_compute. reflexivity.
  - vm_compute. reflexivity.
  - vm_compute. reflexivity.
  - vm_compute. reflexivity.
Defined.

(** The storage of the six 32-bit integers 0..5. *)
Lemma read_storage_exact_witness :
  read_storage linux64 default_options int32
               (read_obj linux64 default_options 0) (str_of_string "V 1")
               (new_reader (drop 35 storage_0_5)) =
  Ok (VRef 0%nat, reader_at [] ∅ [ONdarray storage_array])
  /\ is_storage storage_array 6
  /\ length (nd_data storage_array) = 24%nat.
Proof.
  apply (read_storage_exact linux64 default_options int32
           (read_obj linux64 default_options 0) (str_of_string "V 1")
           (new_reader (drop 35 storage_0_5)) 6
           (new_reader (drop 43 storage_0_5))).
  - vm_compute. reflexivity.
  - lia.
  - simpl. lia.
Defined.

(** The table [{1.0: "a"}] without the int heuristic. *)
Lemma read_table_no_int_heuristic_witness :
  read_table linux64 no_int_heuristic 1 (read_obj linux64 no_int_heuristic 1)
             (new_reader (drop 8 table_one)) =
  Ok (VRef 0%nat,
      reader_at [] (<[1%Z := VRef 0%nat]> ∅) [ODict [(VFloat float_1, str_a)]])
  /\ exists d,
      store (reader_at [] ∅ [ODict [(VFloat float_1, str_a)]]) !! 0%nat
      = Some (ODict d).
Proof.
  apply (read_table_no_int_heuristic linux64 no_int_heuristic 1 1
           (new_reader (drop 8 table_one)) 1
           (new_reader (drop 12 table_one))
           [(VFloat float_1, str_a)]
           (reader_at [] ∅ [ODict [(VFloat float_1, str_a)]])).
  - reflexivity.
  - apply map_Forall_empty.
  - vm_compute. reflexivity.
  - apply (table_run_cons _ _
             (reader_at (drop 12 table_one) ∅ [ODict []])
             (VFloat float_1)
             (reader_at (drop 24 table_one) ∅ [ODict []])
             str_a
             (reader_at [] ∅ [ODict []])
             (reader_at [] ∅ [ODict [(VFloat float_1, str_a)]])).
    + vm_compute. reflexivity.
    + vm_compute. reflexivity.
    + vm_compute. reflexivity.
    + apply table_run_nil.
  - reflexivity.
  - exists (VFloat float_1). split; [|discriminate].
    rewrite fmap_cons. left.
Defined.

(** The dimension count -1, followed by the offset 1 and a nil storage. *)
Lemma read_tensor_generic_negative_ndim_witness :
  let o8 := Options true true true true in
  let bs := enc_int (-1) ++ le_bytes 8 1 ++ enc_int TYPE_NIL in
  read_tensor_generic linux64 default_options float64
                      (read_obj linux64 default_options 1)
                      (str_of_string "V 1") (new_reader bs)
  = Raise ValueError
  /\ read_tensor_generic linux64 o8 float64 (read_obj linux64 o8 1)
                         (str_of_string "V 1") (new_reader bs)
     = Ok (VRef 0%nat, reader_at [] ∅ [ONdarray (empty_array float64)]).
Proof.
  intros o8 bs. split.
  - refine (proj1 (read_tensor_generic_negative_ndim linux64 default_options
                     float64 (read_obj linux64 default_options 1)
                     (str_of_string "V 1") (new_reader bs) (-1)
                     (new_reader (drop 4 bs)) _ _) _).
    + vm_compute. reflexivity.
    + lia.
    + reflexivity.
  - refine (proj2 (read_tensor_generic_negative_ndim linux64 o8
                     float64 (read_obj linux64 o8 1)
                     (str_of_string "V 1") (new_reader bs) (-1)
                     (new_reader (drop 4 bs)) _ _) _
                  1 (new_reader (drop 12 bs)) VNone (new_reader []) _ _).
    + vm_compute. reflexivity.
    + lia.
    + reflexivity.
    + vm_compute. reflexivity.
    + vm_compute. reflexivity.
Defined.

(** The length -1 before the two bytes "ab". *)
Lemma read_string_negative_size_witness :
  read_string linux64 (new_reader (enc_int (-1) ++ [x61; x62])) =
  Ok ([97; 98]%N, new_reader []).
Proof.
  refine (read_string_negative_size linux64
            (new_reader (enc_int (-1) ++ [x61; x62])) (-1)
            (new_reader [x61; x62]) _ _).
  - vm_compute. reflexivity.
  - lia.
Defined.

(** A table 1 of the announced size -3. *)
Lemma read_table_nonpositive_size_witness :
  read_table linux64 default_options 1 (read_obj linux64 default_options 0)
             (new_reader (enc_int (-3) ++ [x07])) =
  Ok (VRef 1%nat,
      reader_at [x07] (<[1%Z := VRef 1%nat]> ∅) [ODict []; OList []]).
Proof.
  refine (read_table_nonpositive_size linux64 default_options 1
            (read_obj linux64 default_options 0)
            (new_reader (enc_int (-3) ++ [x07])) (-3) (new_reader [x07]) _ _).
  - vm_compute. reflexivity.
  - lia.
Defined.
